(** * HPServer: the growable byte buffer of [code/buffer/buffer.cpp]

    A shallow embedding of class [Buffer] and the properties of its
    cursor bookkeeping, append path, growth/compaction and descriptor
    transfer.

    Conventions of the embedding
    - [size_t] values are integers in [0, 2^64); every [size_t] operation of
      the source is written with its reduction modulo 2^64 ([size_t]).
    - [std::vector<char>] is a [list byte]; [resize] zero-fills and throws
      [std::length_error] beyond [vector_max_size].
    - a [char*] into the vector is the offset from [&buffer_[0]]; a [char*]
      argument supplied by a caller is the byte array it points to.
    - a call either returns normally ([Ok]), trips an [assert]
      ([AssertFail]), throws from vector growth ([LengthError]) or touches
      memory outside an array ([OutOfBounds], undefined behaviour in C++). *)

From Stdlib Require Import ZArith Lia.
From Stdlib Require Import Init.Byte.
From stdpp Require Import base list.

Local Open Scope Z_scope.

(** ** Machine integers *)

Definition SIZE_MOD : Z := 2 ^ 64.
Definition SSIZE_MAX : Z := 2 ^ 63 - 1.

(** Conversion to (and arithmetic in) [size_t]: reduction modulo 2^64. *)
Definition size_t (z : Z) : Z := z mod SIZE_MOD.

(** [std::vector<char>::max_size()] of a 64-bit libstdc++: PTRDIFF_MAX. *)
Definition vector_max_size : Z := 2 ^ 63 - 1.

(** The range of [int]. *)
Definition INT_MIN : Z := - 2 ^ 31.
Definition INT_MAX : Z := 2 ^ 31 - 1.

(** ** Outcomes of a call *)

Inductive result (A : Type) : Type :=
| Ok (a : A)
| AssertFail
| LengthError
| OutOfBounds.

Arguments Ok {A} a.
Arguments AssertFail {A}.
Arguments LengthError {A}.
Arguments OutOfBounds {A}.

Global Instance result_bind : MBind result := fun A B k m =>
  match m with
  | Ok a => k a
  | AssertFail => AssertFail
  | LengthError => LengthError
  | OutOfBounds => OutOfBounds
  end.

Global Instance result_ret : MRet result := fun A a => Ok a.

Global Instance result_fmap : FMap result := fun A B f m =>
  match m with
  | Ok a => Ok (f a)
  | AssertFail => AssertFail
  | LengthError => LengthError
  | OutOfBounds => OutOfBounds
  end.

(** [assert(c)] of <cassert>. *)
Definition assert_ (c : bool) : result unit :=
  if c then Ok tt else AssertFail.

Definition is_ok {A : Type} (m : result A) : bool :=
  match m with Ok _ => true | _ => false end.

(** ** Memory operations used by the buffer *)

Definition vsize (v : list byte) : Z := Z.of_nat (length v).

(** [v.resize(n)]: truncation when shrinking, zero-filled growth otherwise;
    growth beyond [max_size()] throws. *)
Definition vector_resize (n : Z) (v : list byte) : result (list byte) :=
  if n <=? vsize v then Ok (resize (Z.to_nat n) x00 v)
  else if vector_max_size <? n then LengthError
  else Ok (resize (Z.to_nat n) x00 v).

(** The loop of [std::copy(first, last, d_first)] with all three pointers
    into the same array [v]: [n] elements, read at [s], written at [d],
    front to back. *)
Fixpoint copy_loop (n : nat) (s d : nat) (v : list byte) : result (list byte) :=
  match n with
  | O => Ok v
  | S n' =>
      match v !! s with
      | Some x =>
          if decide (d < length v)%nat
          then copy_loop n' (S s) (S d) (<[d := x]> v)
          else OutOfBounds
      | None => OutOfBounds
      end
  end.

Definition std_copy_within (first last d_first : Z) (v : list byte)
  : result (list byte) :=
  if (last <? first) || (first <? 0) || (d_first <? 0) then OutOfBounds
  else copy_loop (Z.to_nat (last - first)) (Z.to_nat first) (Z.to_nat d_first) v.

(** The same loop reading from a caller's array [src] and writing into [v]
    from offset [d] on. *)
Fixpoint copy_from (n : nat) (src : list byte) (d : nat) (v : list byte)
  : result (list byte) :=
  match n with
  | O => Ok v
  | S n' =>
      match src with
      | x :: src' =>
          if decide (d < length v)%nat
          then copy_from n' src' (S d) (<[d := x]> v)
          else OutOfBounds
      | [] => OutOfBounds
      end
  end.

(** Reading [n] bytes of [v] from offset [off] (a view, a [std::string]
    constructed from pointer and length, or the kernel reading a user
    buffer). It is what the code reads when the [n] bytes lie inside the
    vector, [off + n <= v.size()], as they do for the content of a
    well-formed buffer; a read that runs past the end of the vector has no
    counterpart here (the list simply ends), and no property below is stated
    about one. *)
Definition bytes_at (v : list byte) (off n : Z) : list byte :=
  take (Z.to_nat n) (drop (Z.to_nat off) v).

(** The kernel storing [d] into [v] from offset [off] on. *)
Definition store_at (v : list byte) (off : Z) (d : list byte) : list byte :=
  take (Z.to_nat off) v ++ d ++ drop (Z.to_nat off + length d) v.

(** ** The buffer *)

(** Modelled from the spec: [buffer.h] is not part of the sources. The class
    has the three fields the member functions use: the storage
    [buffer_] (a [std::vector<char>]) and the two cursors [readPos_] and
    [writePos_], indices of type [size_t] into it (section 3 of the
    specification: storage, read_cursor, write_cursor). *)
Record Buffer : Type := mkBuffer {
  buffer_ : list byte;
  readPos_ : Z;
  writePos_ : Z
}.

Definition with_buffer (b : Buffer) (v : list byte) : Buffer :=
  mkBuffer v (readPos_ b) (writePos_ b).
Definition with_readPos (b : Buffer) (r : Z) : Buffer :=
  mkBuffer (buffer_ b) r (writePos_ b).
Definition with_writePos (b : Buffer) (w : Z) : Buffer :=
  mkBuffer (buffer_ b) (readPos_ b) w.

(** [buffer_.size()] *)
Definition bsize (b : Buffer) : Z := vsize (buffer_ b).

(** [Buffer::Buffer(int initBuffSize)]. The argument is an [int]: the
    definition stands for the constructor for
    [INT_MIN <= initBuffSize <= INT_MAX]. *)
Definition Buffer_new (initBuffSize : Z) : result Buffer :=
  let n := size_t initBuffSize in
  if vector_max_size <? n then LengthError
  else Ok (mkBuffer (replicate (Z.to_nat n) x00) 0 0).

Definition WritableBytes (b : Buffer) : Z := size_t (bsize b - writePos_ b).
Definition ReadableBytes (b : Buffer) : Z := size_t (writePos_ b - readPos_ b).
Definition PrependableBytes (b : Buffer) : Z := readPos_ b.

(** Pointers into [buffer_], as offsets from [&buffer_[0]]. *)
Definition BeginPtr_ (b : Buffer) : Z := 0.
Definition Peek (b : Buffer) : Z := readPos_ b.
Definition BeginWriteConst (b : Buffer) : Z := writePos_ b.
Definition BeginWrite (b : Buffer) : Z := writePos_ b.

Definition HasWritten (b : Buffer) (len : Z) : result Buffer :=
  Ok (with_writePos b (size_t (writePos_ b + len))).

Definition Retrieve (b : Buffer) (len : Z) : result Buffer :=
  Ok (with_readPos b (size_t (readPos_ b + len))).

Definition RetrieveUntil (b : Buffer) (end_ : Z) : result Buffer :=
  assert_ (Peek b <=? end_) ;;
  Retrieve b (size_t (end_ - Peek b)).

Definition RetrieveAll (b : Buffer) : result Buffer :=
  Ok (mkBuffer (replicate (length (buffer_ b)) x00) 0 0).

(** [RetrieveAllToStr()]. The [std::string] is built from [Peek()] and
    [ReadableBytes()]; the definition stands for the code on well-formed
    buffers, where these bytes are the content (see [bytes_at]). *)
Definition RetrieveAllToStr (b : Buffer) : result (Buffer * list byte) :=
  let str := bytes_at (buffer_ b) (Peek b) (ReadableBytes b) in
  b' ← RetrieveAll b;
  Ok (b', str).

Definition MakeSpace_ (b : Buffer) (len : Z) : result Buffer :=
  if size_t (WritableBytes b + PrependableBytes b) <? len then
    v ← vector_resize (size_t (writePos_ b + len + 1)) (buffer_ b);
    Ok (with_buffer b v)
  else
    let readable := ReadableBytes b in
    v ← std_copy_within (BeginPtr_ b + readPos_ b) (BeginPtr_ b + writePos_ b)
                         (BeginPtr_ b) (buffer_ b);
    let b' := mkBuffer v 0 readable in
    assert_ (readable =? ReadableBytes b') ;;
    Ok b'.

Definition EnsureWriteable (b : Buffer) (len : Z) : result Buffer :=
  b' ← (if WritableBytes b <? len then MakeSpace_ b len else Ok b);
  assert_ (len <=? WritableBytes b') ;;
  Ok b'.

(** [Append(const char *str, size_t len)]; [None] is the null pointer. *)
Definition Append (b : Buffer) (str : option (list byte)) (len : Z)
  : result Buffer :=
  match str with
  | None => AssertFail
  | Some src =>
      b1 ← EnsureWriteable b len;
      v ← copy_from (Z.to_nat len) src (Z.to_nat (BeginWrite b1)) (buffer_ b1);
      HasWritten (with_buffer b1 v) len
  end.

(** [Append(const std::string &str)] *)
Definition Append_string (b : Buffer) (str : list byte) : result Buffer :=
  Append b (Some str) (Z.of_nat (length str)).

(** [Append(const void *data, size_t len)] *)
Definition Append_data (b : Buffer) (data : option (list byte)) (len : Z)
  : result Buffer :=
  Append b data len.

(** [Append(const Buffer &buff)], for a [buff] other than [*this]. *)
Definition Append_Buffer (b buff : Buffer) : result Buffer :=
  Append b (Some (drop (Z.to_nat (Peek buff)) (buffer_ buff)))
         (ReadableBytes buff).

(** ** Descriptors *)

(** What a descriptor does on one [readv]: it fails with an errno, or it has
    [pending] bytes to hand over (as many of them as the two regions hold
    are transferred, at most [SSIZE_MAX]). *)
Inductive read_end : Type :=
| ReadError (e : Z)
| ReadReady (pending : list byte).

Record readv_ret : Type := mkReadv {
  rv_len : Z;            (* the return value *)
  rv_errno : Z;          (* errno after the call, meaningful when rv_len < 0 *)
  rv_iov0 : list byte;   (* bytes stored in iov[0] *)
  rv_iov1 : list byte    (* bytes stored in iov[1] *)
}.

Definition readv (fd : read_end) (iov0_len iov1_len : Z) : readv_ret :=
  match fd with
  | ReadError e => mkReadv (-1) e [] []
  | ReadReady pending =>
      let room := Z.min (iov0_len + iov1_len) SSIZE_MAX in
      let got := take (Z.to_nat room) pending in
      mkReadv (Z.of_nat (length got)) 0
              (take (Z.to_nat iov0_len) got) (drop (Z.to_nat iov0_len) got)
  end.

(** What a descriptor does on one [write]: it fails with an errno, or it
    accepts up to [room] bytes. *)
Inductive write_end : Type :=
| WriteError (e : Z)
| WriteRoom (room : Z).

Definition write (fd : write_end) (count : Z) : Z * Z :=
  match fd with
  | WriteError e => (-1, e)
  | WriteRoom room => (Z.max 0 (Z.min room count), 0)
  end.

(** [sizeof(buff)] of the local array [char buff[65535]] in [ReadFd]. *)
Definition sizeof_buff : Z := 65535.

(** The result of a descriptor transfer: the buffer, the caller's [*Errno]
    and the returned [ssize_t]. *)
Record fd_ret : Type := mkFdRet {
  ret_buf : Buffer;
  ret_Errno : Z;
  ret_len : Z
}.

(** The two destinations of the scatter read: a place in [buffer_] or the
    local array. *)
Inductive iov_target : Type :=
| InBuffer (off : Z)
| LocalArray.

Record iovec : Type := mkIovec {
  iov_base : iov_target;
  iov_len : Z
}.

(** The array [iov] as [ReadFd] fills it in before calling [readv]. *)
Definition ReadFd_iov (b : Buffer) : iovec * iovec :=
  let writeable := WritableBytes b in
  (mkIovec (InBuffer (BeginWrite b)) writeable,
   mkIovec LocalArray sizeof_buff).

(** [ReadFd(int fd, int *Errno)]. [buff] is the content of the local array
    when the function is entered and [Errno] the content of [*Errno]. *)
Definition ReadFd (b : Buffer) (buff : list byte) (Errno : Z) (fd : read_end)
  : result fd_ret :=
  let writeable := WritableBytes b in
  let iov := ReadFd_iov b in
  let r := readv fd (iov_len (fst iov)) (iov_len (snd iov)) in
  let b0 := with_buffer b (store_at (buffer_ b) (BeginWrite b) (rv_iov0 r)) in
  let buff' := rv_iov1 r ++ drop (length (rv_iov1 r)) buff in
  let len := rv_len r in
  if len <? 0 then
    Ok (mkFdRet b0 (rv_errno r) len)
  else if size_t len <=? writeable then
    Ok (mkFdRet (with_writePos b0 (size_t (writePos_ b0 + len))) Errno len)
  else
    let b1 := with_writePos b0 (bsize b0) in
    b2 ← Append b1 (Some buff') (size_t (len - writeable));
    Ok (mkFdRet b2 Errno len).

(** [WriteFd(int fd, int *Errno)] *)
Definition WriteFd (b : Buffer) (Errno : Z) (fd : write_end) : result fd_ret :=
  let '(len, e) := write fd (ReadableBytes b) in
  if len <? 0 then
    Ok (mkFdRet b e len)
  else
    b' ← Retrieve b (size_t len);
    Ok (mkFdRet b' Errno len).

(** The bytes the descriptor took from the buffer in that call. *)
Definition WriteFd_sent (b : Buffer) (fd : write_end) : list byte :=
  let '(len, _) := write fd (ReadableBytes b) in
  bytes_at (buffer_ b) (Peek b) len.

(** ** Regions and the cursor invariant *)

(** The content of the buffer: [ReadableBytes] bytes from [Peek]. *)
Definition readable (b : Buffer) : list byte :=
  bytes_at (buffer_ b) (Peek b) (ReadableBytes b).

Definition cursor_inv (b : Buffer) : Prop :=
  0 <= readPos_ b /\ readPos_ b <= writePos_ b /\ writePos_ b <= bsize b.

Definition cursor_invb (b : Buffer) : bool :=
  (0 <=? readPos_ b) && (readPos_ b <=? writePos_ b) && (writePos_ b <=? bsize b).

(** A state the class can be in: the invariant, and a vector no larger
    than [max_size()]. *)
Definition wf (b : Buffer) : Prop :=
  cursor_inv b /\ bsize b <= vector_max_size.

Definition wfb (b : Buffer) : bool :=
  cursor_invb b && (bsize b <=? vector_max_size).

Definition typed (b : Buffer) : Prop :=
  0 <= readPos_ b < SIZE_MOD /\ 0 <= writePos_ b < SIZE_MOD.

(** Growth to [writePos_ + len + 1] bytes is asked for and is more than the
    vector can hold. *)
Definition growth_refused (b : Buffer) (len : Z) : bool :=
  (WritableBytes b <? len)
  && (WritableBytes b + PrependableBytes b <? len)
  && (vector_max_size <? writePos_ b + len + 1).

(** What one [readv] of [ReadFd] hands over: as much of the pending bytes as
    the two regions hold. *)
Definition delivered (b : Buffer) (pending : list byte) : list byte :=
  take (Z.to_nat (Z.min (WritableBytes b + sizeof_buff) SSIZE_MAX)) pending.

(** ** Calls of the public interface

    The mutating member functions as one type, so that a property of "every
    operation" is a statement about [run]. The size queries and [Peek] do not
    change the object. *)
Inductive call : Type :=
| CEnsureWriteable (len : Z)
| CHasWritten (len : Z)
| CRetrieve (len : Z)
| CRetrieveUntil (end_ : Z)
| CRetrieveAll
| CRetrieveAllToStr
| CAppend (str : list byte) (len : Z)
| CAppendString (str : list byte)
| CAppendBuffer (buff : Buffer)
| CReadFd (buff : list byte) (Errno : Z) (fd : read_end)
| CWriteFd (Errno : Z) (fd : write_end).

Definition run (c : call) (b : Buffer) : result Buffer :=
  match c with
  | CEnsureWriteable len => EnsureWriteable b len
  | CHasWritten len => HasWritten b len
  | CRetrieve len => Retrieve b len
  | CRetrieveUntil end_ => RetrieveUntil b end_
  | CRetrieveAll => RetrieveAll b
  | CRetrieveAllToStr => fst <$> RetrieveAllToStr b
  | CAppend str len => Append b (Some str) len
  | CAppendString str => Append_string b str
  | CAppendBuffer buff => Append_Buffer b buff
  | CReadFd buff Errno fd => ret_buf <$> ReadFd b buff Errno fd
  | CWriteFd Errno fd => ret_buf <$> WriteFd b Errno fd
  end.

(** The precondition the interface states for a call: arguments are values
    of their C++ types, a pointer argument points to at least [len] bytes,
    and [HasWritten], [Retrieve] and [RetrieveUntil] stay within the writable
    and readable regions. *)
Definition stated_pre (c : call) (b : Buffer) : Prop :=
  match c with
  | CEnsureWriteable len => 0 <= len < SIZE_MOD
  | CHasWritten len => 0 <= len <= WritableBytes b
  | CRetrieve len => 0 <= len <= ReadableBytes b
  | CRetrieveUntil end_ => Peek b <= end_ <= BeginWrite b
  | CRetrieveAll => True
  | CRetrieveAllToStr => True
  | CAppend str len =>
      0 <= len <= Z.of_nat (length str) /\
      Z.of_nat (length str) <= vector_max_size
  | CAppendString str => Z.of_nat (length str) <= vector_max_size
  | CAppendBuffer buff => wf buff
  | CReadFd _ _ _ => True
  | CWriteFd _ _ => True
  end.

(** The size [writePos_ + len + 1] that [MakeSpace_] computes for a call of
    [EnsureWriteable] is below 2^64. *)
Definition size_fits (c : call) (b : Buffer) : Prop :=
  match c with
  | CEnsureWriteable len => writePos_ b + len + 1 < SIZE_MOD
  | _ => True
  end.

(** ** Sequences of calls *)

(** The calls of a client, one after the other; the first call that does not
    return normally ends the sequence. *)
Fixpoint run_all (cs : list call) (b : Buffer) : result Buffer :=
  match cs with
  | [] => Ok b
  | c :: cs' => b' ← run c b; run_all cs' b'
  end.

(** Every call of the sequence is made in a state that meets its
    precondition. *)
Fixpoint pre_all (cs : list call) (b : Buffer) : Prop :=
  match cs with
  | [] => True
  | c :: cs' =>
      stated_pre c b /\ size_fits c b /\
      match run c b with
      | Ok b' => pre_all cs' b'
      | _ => True
      end
  end.

(** ** Sample states *)

(** The bytes of "hello". *)
Definition hello : list byte := [x68; x65; x6c; x6c; x6f].

(** A buffer of capacity 10 after [Append("hello")]. *)
Definition hello_buffer : Buffer := mkBuffer (hello ++ replicate 5 x00) 0 5.

(** The same content after three bytes "abc" were consumed before it. *)
Definition shifted_buffer : Buffer :=
  mkBuffer ([x61; x62; x63] ++ hello ++ replicate 2 x00) 3 8.

(** A length whose sum with a small cursor wraps around in [size_t]. *)
Definition huge_len : Z := SIZE_MOD - 3.

(** * Properties *)

(** ** The sample states are reachable *)

Example hello_buffer_reached :
  (b ← Buffer_new 10; Append_string b hello) = Ok hello_buffer.
Proof. reflexivity. Qed.

Example shifted_buffer_reached :
  (b ← Buffer_new 10;
   b ← Append_string b [x61; x62; x63];
   b ← Append_string b hello;
   Retrieve b 3) = Ok shifted_buffer.
Proof. reflexivity. Qed.

(** The scenario of the specification: capacity 10, "hello" appended and
    retrieved, then ten bytes appended; the second append compacts. *)
Example scenario_compaction :
  (b ← Buffer_new 10;
   b ← Append_string b hello;
   b ← Retrieve b 5;
   Append_string b (replicate 10 x21))
  = Ok (mkBuffer (replicate 10 x21) 0 10).
Proof. reflexivity. Qed.

(** ** Arithmetic in [size_t] *)

Lemma SIZE_MOD_eq : SIZE_MOD = 18446744073709551616.
Proof. reflexivity. Qed.

Lemma vector_max_size_eq : vector_max_size = 9223372036854775807.
Proof. reflexivity. Qed.

Lemma SSIZE_MAX_eq : SSIZE_MAX = 9223372036854775807.
Proof. reflexivity. Qed.

Lemma size_t_small z : 0 <= z < SIZE_MOD -> size_t z = z.
Proof. intros H. unfold size_t. apply Z.mod_small. exact H. Qed.

Lemma size_t_range z : 0 <= size_t z < SIZE_MOD.
Proof. unfold size_t. apply Z.mod_pos_bound. reflexivity. Qed.

Lemma size_t_wrap_once z :
  SIZE_MOD <= z < 2 * SIZE_MOD -> size_t z = z - SIZE_MOD.
Proof.
  intros H. unfold size_t.
  replace z with ((z - SIZE_MOD) + 1 * SIZE_MOD) at 1 by ring.
  rewrite Z.mod_add by (rewrite SIZE_MOD_eq; lia).
  apply Z.mod_small. lia.
Qed.

(** ** The copy loops *)

Lemma copy_loop_ok n : forall s d v,
  (d <= s)%nat -> (s + n <= length v)%nat ->
  copy_loop n s d v = Ok (take d v ++ take n (drop s v) ++ drop (d + n) v).
Proof.
  induction n as [|n IH]; intros s d v Hds Hlen; simpl.
  - rewrite Nat.add_0_r, take_drop. reflexivity.
  - destruct (lookup_lt_is_Some_2 v s) as [x Hx]; [lia|].
    rewrite Hx. destruct (decide (d < length v)%nat) as [_|Hd]; [|lia].
    rewrite IH by (rewrite ?length_insert; lia).
    f_equal.
    rewrite (take_S_r (<[d:=x]> v) d x)
      by (apply list_lookup_insert_eq; lia).
    rewrite take_insert_ge by lia.
    rewrite (drop_insert_lt v (S s)) by lia.
    rewrite (drop_insert_lt v (S d + n)) by lia.
    rewrite (drop_S v x s Hx). simpl.
    rewrite <- (assoc_L (++)). simpl.
    rewrite Nat.add_succ_r. reflexivity.
Qed.

Lemma copy_from_ok n : forall src d v,
  (n <= length src)%nat -> (d + n <= length v)%nat ->
  copy_from n src d v = Ok (take d v ++ take n src ++ drop (d + n) v).
Proof.
  induction n as [|n IH]; intros src d v Hsrc Hlen; simpl.
  - rewrite Nat.add_0_r, take_drop. reflexivity.
  - destruct src as [|x src]; simpl in Hsrc; [lia|].
    destruct (decide (d < length v)%nat) as [_|Hd]; [|lia].
    rewrite IH by (rewrite ?length_insert; lia).
    f_equal.
    rewrite (take_S_r (<[d:=x]> v) d x)
      by (apply list_lookup_insert_eq; lia).
    rewrite take_insert_ge by lia.
    rewrite (drop_insert_lt v (S d + n)) by lia.
    rewrite <- (assoc_L (++)). simpl.
    rewrite Nat.add_succ_r. reflexivity.
Qed.

(** Only the first [n] bytes of the source array are read. *)
Lemma copy_from_app n : forall src rest1 rest2 d v,
  (n <= length src)%nat ->
  copy_from n (src ++ rest1) d v = copy_from n (src ++ rest2) d v.
Proof.
  induction n as [|n IH]; intros src rest1 rest2 d v Hn; simpl; [reflexivity|].
  destruct src as [|x src]; simpl in Hn; [lia|]. simpl.
  destruct (decide (d < length v)%nat); [|reflexivity].
  apply IH. lia.
Qed.

(** ** Sizes and regions of a well-formed buffer *)

Lemma wf_bounds b :
  wf b ->
  0 <= readPos_ b /\ readPos_ b <= writePos_ b /\
  writePos_ b <= bsize b /\ bsize b <= vector_max_size /\
  bsize b < SIZE_MOD.
Proof.
  intros [(Hr & Hrw & Hws) Hmax]. rewrite vector_max_size_eq in Hmax.
  rewrite SIZE_MOD_eq. rewrite vector_max_size_eq. lia.
Qed.

Lemma wf_typed b : wf b -> typed b.
Proof. intros H. apply wf_bounds in H. unfold typed. lia. Qed.

Lemma wf_WritableBytes b : wf b -> WritableBytes b = bsize b - writePos_ b.
Proof.
  intros H. apply wf_bounds in H. unfold WritableBytes.
  apply size_t_small. lia.
Qed.

Lemma wf_ReadableBytes b : wf b -> ReadableBytes b = writePos_ b - readPos_ b.
Proof.
  intros H. apply wf_bounds in H. unfold ReadableBytes.
  apply size_t_small. lia.
Qed.

Lemma cursor_invb_spec b : cursor_invb b = true <-> cursor_inv b.
Proof.
  unfold cursor_invb, cursor_inv.
  rewrite !andb_true_iff, !Z.leb_le. tauto.
Qed.

Lemma region_after_store (v d rest : list byte) (rn wn : nat) :
  (rn <= wn)%nat -> (wn <= length v)%nat ->
  take (wn + length d - rn) (drop rn (take wn v ++ d ++ rest))
  = take (wn - rn) (drop rn v) ++ d.
Proof.
  intros Hrw Hwv.
  rewrite drop_app_le by (rewrite length_take; lia).
  rewrite take_app_ge by (rewrite length_drop, length_take; lia).
  rewrite length_drop, length_take.
  replace (wn + length d - rn - (wn `min` length v - rn))%nat
    with (length d) by lia.
  rewrite take_app_length.
  rewrite take_drop_commute.
  replace (rn + (wn - rn))%nat with wn by lia. reflexivity.
Qed.

(** Storing [d] at the write cursor and advancing the cursor by its length
    appends [d] to the content. *)
Lemma readable_store v r w d rest :
  0 <= r <= w -> w <= vsize v -> w + Z.of_nat (length d) < SIZE_MOD ->
  readable (mkBuffer (take (Z.to_nat w) v ++ d ++ rest) r
                     (w + Z.of_nat (length d)))
  = readable (mkBuffer v r w) ++ d.
Proof.
  intros Hrw Hwv Hfit. unfold readable, bytes_at, Peek, ReadableBytes, vsize in *.
  simpl. rewrite !size_t_small by lia.
  replace (Z.to_nat (w + Z.of_nat (length d) - r))
    with (Z.to_nat w + length d - Z.to_nat r)%nat by lia.
  replace (Z.to_nat (w - r)) with (Z.to_nat w - Z.to_nat r)%nat by lia.
  apply region_after_store; lia.
Qed.

(** ** Growth and compaction *)

Section MakeSpace.
Variable b : Buffer.
Variable len : Z.
Hypothesis Hwf : wf b.

(** Growth: zero bytes are added behind the old storage. *)
Lemma MakeSpace_grow :
    WritableBytes b + PrependableBytes b < len ->
    writePos_ b + len + 1 <= vector_max_size ->
    MakeSpace_ b len
    = Ok (with_buffer b
            (buffer_ b ++
             replicate (Z.to_nat (writePos_ b + len + 1 - bsize b)) x00)).
Proof.
    intros Hneed Hfit. pose proof (wf_bounds b Hwf) as Hb.
    rewrite wf_WritableBytes in Hneed by assumption.
    unfold PrependableBytes in Hneed. rewrite vector_max_size_eq in Hfit.
    unfold MakeSpace_. rewrite wf_WritableBytes by assumption.
    unfold PrependableBytes.
    rewrite size_t_small by lia.
    destruct (Z.ltb_spec (bsize b - writePos_ b + readPos_ b) len); [|lia].
    rewrite size_t_small by (rewrite SIZE_MOD_eq; lia).
    unfold vector_resize. fold (bsize b).
    destruct (Z.leb_spec (writePos_ b + len + 1) (bsize b)); [lia|].
    destruct (Z.ltb_spec vector_max_size (writePos_ b + len + 1));
      [rewrite vector_max_size_eq in *; lia|].
    simpl. unfold bsize, vsize in *.
    rewrite resize_ge by lia.
    do 4 f_equal. lia.
Qed.

(** Growth beyond [max_size()] throws. *)
Lemma MakeSpace_throw :
    WritableBytes b + PrependableBytes b < len ->
    vector_max_size < writePos_ b + len + 1 < SIZE_MOD ->
    MakeSpace_ b len = LengthError.
Proof.
    intros Hneed Hfit. pose proof (wf_bounds b Hwf) as Hb.
    rewrite wf_WritableBytes in Hneed by assumption.
    unfold PrependableBytes in Hneed.
    unfold MakeSpace_. rewrite wf_WritableBytes by assumption.
    unfold PrependableBytes.
    rewrite size_t_small by lia.
    destruct (Z.ltb_spec (bsize b - writePos_ b + readPos_ b) len); [|lia].
    rewrite size_t_small by lia.
    unfold vector_resize. fold (bsize b).
    destruct (Z.leb_spec (writePos_ b + len + 1) (bsize b)); [lia|].
    destruct (Z.ltb_spec vector_max_size (writePos_ b + len + 1)); [|lia].
    reflexivity.
Qed.

(** Compaction: the content moves to offset 0; what lay behind it stays. *)
Lemma MakeSpace_compact :
    len <= WritableBytes b + PrependableBytes b ->
    MakeSpace_ b len
    = Ok (mkBuffer
            (readable b ++ drop (Z.to_nat (ReadableBytes b)) (buffer_ b))
            0 (ReadableBytes b)).
Proof.
    intros Hroom. pose proof (wf_bounds b Hwf) as Hb.
    rewrite wf_WritableBytes in Hroom by assumption.
    unfold PrependableBytes in Hroom.
    unfold MakeSpace_. rewrite wf_WritableBytes by assumption.
    unfold PrependableBytes.
    rewrite size_t_small by lia.
    destruct (Z.ltb_spec (bsize b - writePos_ b + readPos_ b) len); [lia|].
    unfold std_copy_within, BeginPtr_. rewrite !Z.add_0_l.
    destruct (Z.ltb_spec (writePos_ b) (readPos_ b)); [lia|].
    destruct (Z.ltb_spec (readPos_ b) 0); [lia|].
    change (0 <? 0) with false. cbn [orb].
    unfold bsize, vsize in *.
    rewrite copy_loop_ok by lia.
    cbn [mbind result_bind].
    unfold readable, bytes_at, Peek.
    rewrite wf_ReadableBytes by assumption.
    unfold ReadableBytes. cbn [writePos_ readPos_].
    rewrite Z.sub_0_r.
    rewrite (size_t_small (writePos_ b - readPos_ b)) by lia.
    rewrite Z.eqb_refl. cbn [assert_ mbind result_bind].
    change (Z.to_nat 0) with 0%nat. rewrite take_0, Nat.add_0_l.
    reflexivity.
Qed.
End MakeSpace.

(** When [writePos_ + len + 1] reaches 2^64 the sum wraps around to a value
    that is at most the write cursor, and the "growth" cuts the storage
    there. *)
Lemma MakeSpace_wraps b len :
  wf b -> len < SIZE_MOD -> SIZE_MOD <= writePos_ b + len + 1 ->
  MakeSpace_ b len
  = Ok (with_buffer b
          (take (Z.to_nat (writePos_ b + len + 1 - SIZE_MOD)) (buffer_ b))).
Proof.
  intros Hwf Hlen Hwrap. pose proof (wf_bounds b Hwf) as Hb.
  rewrite vector_max_size_eq in Hb. rewrite SIZE_MOD_eq in Hlen, Hwrap.
  unfold MakeSpace_. rewrite wf_WritableBytes by assumption.
  unfold PrependableBytes.
  rewrite size_t_small by (rewrite SIZE_MOD_eq; lia).
  destruct (Z.ltb_spec (bsize b - writePos_ b + readPos_ b) len); [|lia].
  rewrite size_t_wrap_once by (rewrite SIZE_MOD_eq; lia).
  unfold vector_resize. fold (bsize b).
  destruct (Z.leb_spec (writePos_ b + len + 1 - SIZE_MOD) (bsize b));
    [|rewrite SIZE_MOD_eq in *; lia].
  cbn [mbind result_bind].
  rewrite resize_le by (unfold bsize, vsize in *; lia).
  reflexivity.
Qed.

Lemma wfb_spec b : wfb b = true <-> wf b.
Proof.
  unfold wfb, wf. rewrite andb_true_iff, cursor_invb_spec, Z.leb_le. tauto.
Qed.

Lemma length_readable b :
  wf b -> Z.of_nat (length (readable b)) = writePos_ b - readPos_ b.
Proof.
  intros Hwf. pose proof (wf_bounds b Hwf) as Hb.
  unfold readable, bytes_at, Peek. rewrite wf_ReadableBytes by assumption.
  unfold bsize, vsize in Hb. rewrite length_take, length_drop. lia.
Qed.

Lemma growth_refused_false_fits b len :
  0 <= PrependableBytes b ->
  WritableBytes b + PrependableBytes b < len ->
  growth_refused b len = false ->
  writePos_ b + len + 1 <= vector_max_size.
Proof.
  intros Hp Hneed Hgr. unfold growth_refused in Hgr.
  destruct (Z.ltb_spec (WritableBytes b) len); [|lia].
  destruct (Z.ltb_spec (WritableBytes b + PrependableBytes b) len); [|lia].
  destruct (Z.ltb_spec vector_max_size (writePos_ b + len + 1));
    [discriminate|lia].
Qed.

(** What [EnsureWriteable] does when the requested size does not wrap around
    in [writePos_ + len + 1]: it throws when growth is refused; otherwise it
    returns with room for [len] bytes, the content untouched. *)
Lemma EnsureWriteable_spec b len :
  wf b -> 0 <= len -> writePos_ b + len + 1 < SIZE_MOD ->
  if growth_refused b len then EnsureWriteable b len = LengthError
  else exists b',
      EnsureWriteable b len = Ok b' /\ wf b' /\
      len <= WritableBytes b' /\
      readable b' = readable b /\
      ReadableBytes b' = ReadableBytes b /\
      (len <= WritableBytes b -> b' = b).
Proof.
  intros Hwf Hlen Hnowrap. pose proof (wf_bounds b Hwf) as Hb.
  unfold EnsureWriteable.
  destruct (Z.ltb_spec (WritableBytes b) len) as [Hsmall|Hbig].
  - destruct (Z_lt_le_dec (WritableBytes b + PrependableBytes b) len)
      as [Hneed|Hroom].
    + destruct (growth_refused b len) eqn:Hgr.
      * rewrite MakeSpace_throw; [reflexivity|assumption..|].
        unfold growth_refused in Hgr.
        rewrite !andb_true_iff, !Z.ltb_lt in Hgr. lia.
      * assert (Hfit : writePos_ b + len + 1 <= vector_max_size)
          by (apply growth_refused_false_fits;
              [unfold PrependableBytes; lia|assumption..]).
        rewrite MakeSpace_grow by assumption.
        cbn [mbind result_bind].
        rewrite wf_WritableBytes in Hneed, Hsmall by assumption.
        unfold PrependableBytes in Hneed.
        rewrite vector_max_size_eq in Hfit.
        set (b' := with_buffer b _).
        assert (Hsz : bsize b' = writePos_ b + len + 1).
        { unfold b', bsize, vsize, with_buffer in *. cbn [buffer_].
          rewrite length_app, length_replicate. lia. }
        assert (Hwf' : wf b').
        { unfold wf, cursor_inv. rewrite Hsz, vector_max_size_eq.
          unfold b', with_buffer. cbn [readPos_ writePos_]. lia. }
        assert (Hw' : WritableBytes b' = len + 1).
        { rewrite wf_WritableBytes by assumption. rewrite Hsz.
          unfold b', with_buffer. cbn [writePos_]. lia. }
        rewrite Hw'.
        destruct (Z.leb_spec len (len + 1)); [|lia].
        cbn [assert_ mbind result_bind].
        exists b'. split; [reflexivity|]. split; [exact Hwf'|].
        split; [lia|].
        split; [|split; [|intros Hc; rewrite wf_WritableBytes in Hc by assumption; lia]].
        -- unfold readable, bytes_at, Peek.
           rewrite !wf_ReadableBytes by assumption.
           unfold b', with_buffer. cbn [readPos_ writePos_ buffer_].
           unfold bsize, vsize in Hb.
           rewrite drop_app_le by lia.
           rewrite take_app_le by (rewrite length_drop; lia).
           reflexivity.
        -- rewrite !wf_ReadableBytes by assumption. reflexivity.
    + assert (Hgr : growth_refused b len = false).
      { unfold growth_refused.
        destruct (Z.ltb_spec (WritableBytes b + PrependableBytes b) len);
          [lia|]. rewrite andb_false_r. reflexivity. }
      rewrite Hgr. rewrite MakeSpace_compact by assumption.
      cbn [mbind result_bind].
      pose proof (length_readable b Hwf) as Hlr.
      rewrite wf_WritableBytes in Hroom, Hsmall by assumption.
      unfold PrependableBytes in Hroom.
      rewrite wf_ReadableBytes by assumption.
      set (b' := mkBuffer _ 0 _).
      assert (Hsz : bsize b' = bsize b).
      { unfold b', bsize, vsize in *. cbn [buffer_].
        rewrite length_app, length_drop. lia. }
      assert (Hwf' : wf b').
      { unfold wf, cursor_inv. rewrite Hsz.
        unfold b'. cbn [readPos_ writePos_]. lia. }
      assert (Hw' : WritableBytes b' = bsize b - (writePos_ b - readPos_ b)).
      { rewrite wf_WritableBytes by assumption. rewrite Hsz.
        unfold b'. cbn [writePos_]. reflexivity. }
      rewrite Hw'.
      destruct (Z.leb_spec len (bsize b - (writePos_ b - readPos_ b))); [|lia].
      cbn [assert_ mbind result_bind].
      exists b'. split; [reflexivity|]. split; [exact Hwf'|].
      split; [lia|].
        split; [|split; [|intros Hc; rewrite wf_WritableBytes in Hc by assumption; lia]].
      * unfold readable at 1. unfold bytes_at, Peek.
        rewrite wf_ReadableBytes by assumption.
        unfold b'. cbn [readPos_ writePos_ buffer_].
        change (Z.to_nat 0) with 0%nat. rewrite drop_0, Z.sub_0_r.
        rewrite take_app_length' by lia. reflexivity.
      * rewrite wf_ReadableBytes by assumption.
        unfold b'. cbn [readPos_ writePos_]. lia.
  - assert (Hgr : growth_refused b len = false).
    { unfold growth_refused.
      destruct (Z.ltb_spec (WritableBytes b) len); [lia|]. reflexivity. }
    rewrite Hgr. cbn [mbind result_bind].
    destruct (Z.leb_spec len (WritableBytes b)); [|lia].
    cbn [assert_ mbind result_bind].
    exists b. split; [reflexivity|]. split; [exact Hwf|].
    split; [lia|]. split; [reflexivity|]. split; reflexivity.
Qed.

(** ** The append path *)

Lemma length_store (v d : list byte) (wn : nat) :
  (wn + length d <= length v)%nat ->
  length (take wn v ++ d ++ drop (wn + length d) v) = length v.
Proof.
  intros H. rewrite !length_app, length_take, length_drop. lia.
Qed.

(** [Append] of the first [len] bytes of an array that holds at least [len]
    bytes: it throws when growth is refused and otherwise appends exactly
    those bytes to the content. *)
Lemma Append_spec b src len :
  wf b -> 0 <= len <= vector_max_size -> len <= Z.of_nat (length src) ->
  if growth_refused b len then Append b (Some src) len = LengthError
  else exists b',
      Append b (Some src) len = Ok b' /\ wf b' /\
      readable b' = readable b ++ take (Z.to_nat len) src /\
      (len <= WritableBytes b ->
       readPos_ b' = readPos_ b /\ writePos_ b' = writePos_ b + len /\
       bsize b' = bsize b).
Proof.
  intros Hwf Hlen Hsrc. pose proof (wf_bounds b Hwf) as Hb.
  assert (Hnowrap : writePos_ b + len + 1 < SIZE_MOD)
    by (rewrite vector_max_size_eq in *; rewrite SIZE_MOD_eq; lia).
  pose proof (EnsureWriteable_spec b len Hwf (proj1 Hlen) Hnowrap) as HE.
  unfold Append.
  destruct (growth_refused b len).
  - rewrite HE. reflexivity.
  - destruct HE as (b1 & -> & Hwf1 & Hroom & Hread & _ & Hsame).
    cbn [mbind result_bind].
    pose proof (wf_bounds b1 Hwf1) as Hb1.
    rewrite wf_WritableBytes in Hroom by assumption.
    unfold BeginWrite.
    set (d := take (Z.to_nat len) src).
    assert (Hd : Z.of_nat (length d) = len)
      by (unfold d; rewrite length_take; lia).
    unfold bsize, vsize in Hb1, Hroom.
    rewrite copy_from_ok by lia. fold d.
    cbn [mbind result_bind]. unfold HasWritten, with_writePos, with_buffer.
    cbn [buffer_ readPos_ writePos_].
    rewrite size_t_small by (rewrite SIZE_MOD_eq, vector_max_size_eq in *; lia).
    replace (Z.to_nat (writePos_ b1) + Z.to_nat len)%nat
      with (Z.to_nat (writePos_ b1) + length d)%nat by lia.
    eexists. split; [reflexivity|].
    assert (Hsz : bsize (mkBuffer
              (take (Z.to_nat (writePos_ b1)) (buffer_ b1) ++ d ++
               drop (Z.to_nat (writePos_ b1) + length d) (buffer_ b1))
              (readPos_ b1) (writePos_ b1 + len)) = bsize b1).
    { unfold bsize, vsize. cbn [buffer_]. rewrite length_store by lia.
      reflexivity. }
    split; [|split].
    + unfold wf, cursor_inv. rewrite Hsz. cbn [readPos_ writePos_].
      unfold bsize, vsize. lia.
    + rewrite <- Hread. rewrite <- Hd at 1.
      rewrite readable_store
        by (unfold vsize; rewrite ?SIZE_MOD_eq, ?vector_max_size_eq in *; lia).
      destruct b1; reflexivity.
    + intros Hfits. rewrite Hsz. rewrite (Hsame Hfits).
      cbn [readPos_ writePos_]. auto.
Qed.

(** ** Descriptor transfer *)

Lemma store_at_nil v off : store_at v off [] = v.
Proof.
  unfold store_at. cbn [length app]. rewrite Nat.add_0_r. apply take_drop.
Qed.

Lemma with_buffer_same b : with_buffer b (buffer_ b) = b.
Proof. destruct b; reflexivity. Qed.

Lemma ReadFd_error b buff Errno e :
  ReadFd b buff Errno (ReadError e) = Ok (mkFdRet b e (-1)).
Proof.
  unfold ReadFd. cbn [readv rv_len rv_errno rv_iov0 rv_iov1].
  rewrite store_at_nil, with_buffer_same. reflexivity.
Qed.

Lemma WriteFd_error b Errno e :
  WriteFd b Errno (WriteError e) = Ok (mkFdRet b e (-1)).
Proof. reflexivity. Qed.

Lemma delivered_bound b pending :
  0 <= WritableBytes b ->
  Z.of_nat (length (delivered b pending)) <= WritableBytes b + sizeof_buff /\
  Z.of_nat (length (delivered b pending)) <= SSIZE_MAX.
Proof.
  intros HW. unfold delivered. rewrite length_take.
  change sizeof_buff with 65535. rewrite SSIZE_MAX_eq. lia.
Qed.

Lemma ReadFd_unfold_ready b buff Errno pending :
  let got := delivered b pending in
  let n := Z.of_nat (length got) in
  let iov0 := take (Z.to_nat (WritableBytes b)) got in
  let iov1 := drop (Z.to_nat (WritableBytes b)) got in
  let filled := with_buffer b (store_at (buffer_ b) (writePos_ b) iov0) in
  ReadFd b buff Errno (ReadReady pending)
  = if size_t n <=? WritableBytes b
    then Ok (mkFdRet (with_writePos filled (size_t (writePos_ filled + n)))
                     Errno n)
    else b2 ← Append (with_writePos filled (bsize filled))
                     (Some (iov1 ++ drop (length iov1) buff))
                     (size_t (n - WritableBytes b));
         Ok (mkFdRet b2 Errno n).
Proof.
  intros got n iov0 iov1 filled. unfold ReadFd.
  cbn [ReadFd_iov fst snd iov_len readv rv_len rv_errno rv_iov0 rv_iov1].
  fold (delivered b pending). fold got. fold n. unfold BeginWrite.
  fold iov0. fold iov1. fold filled.
  destruct (Z.ltb_spec n 0); [unfold n in *; lia|]. reflexivity.
Qed.

(** The overflow capture is read back from the front of the local array:
    what the array held before the call does not matter. *)
Lemma ReadFd_scratch_irrelevant b buff1 buff2 Errno fd :
  ReadFd b buff1 Errno fd = ReadFd b buff2 Errno fd.
Proof.
  destruct fd as [e|pending]; [rewrite !ReadFd_error; reflexivity|].
  rewrite !ReadFd_unfold_ready.
  pose proof (size_t_range (bsize b - writePos_ b)) as HW.
  fold (WritableBytes b) in HW.
  destruct (delivered_bound b pending (proj1 HW)) as [_ Hn].
  rewrite SSIZE_MAX_eq in Hn. rewrite SIZE_MOD_eq in HW.
  set (got := delivered b pending) in *.
  rewrite (size_t_small (Z.of_nat (length got))) by (rewrite SIZE_MOD_eq; lia).
  destruct (Z.leb_spec (Z.of_nat (length got)) (WritableBytes b));
    [reflexivity|].
  rewrite size_t_small by (rewrite SIZE_MOD_eq; lia).
  unfold Append.
  destruct (EnsureWriteable _ _) as [b1| | |]; try reflexivity.
  cbn [mbind result_bind].
  rewrite (copy_from_app _ (drop (Z.to_nat (WritableBytes b)) got)
             (drop (length (drop (Z.to_nat (WritableBytes b)) got)) buff1)
             (drop (length (drop (Z.to_nat (WritableBytes b)) got)) buff2));
    [reflexivity|].
  rewrite length_drop. lia.
Qed.

Lemma bsize_store_at b d :
  wf b -> Z.of_nat (length d) <= WritableBytes b ->
  bsize (with_buffer b (store_at (buffer_ b) (writePos_ b) d)) = bsize b.
Proof.
  intros Hwf Hd. pose proof (wf_bounds b Hwf) as Hb.
  rewrite wf_WritableBytes in Hd by assumption.
  unfold bsize, vsize, with_buffer, store_at in *. cbn [buffer_].
  rewrite length_store by lia. reflexivity.
Qed.

Lemma readable_store_at b d :
  wf b -> Z.of_nat (length d) <= WritableBytes b ->
  readable (mkBuffer (store_at (buffer_ b) (writePos_ b) d) (readPos_ b)
                     (writePos_ b + Z.of_nat (length d)))
  = readable b ++ d.
Proof.
  intros Hwf Hd. pose proof (wf_bounds b Hwf) as Hb.
  rewrite wf_WritableBytes in Hd by assumption.
  unfold store_at. rewrite readable_store by (unfold bsize in *; lia).
  destruct b; reflexivity.
Qed.

(** A successful [readv] whose bytes all fit into the writable region: the
    write cursor moves over them. *)
Lemma ReadFd_fits b buff Errno pending :
  wf b ->
  let got := delivered b pending in
  let n := Z.of_nat (length got) in
  let filled :=
    with_buffer b (store_at (buffer_ b) (writePos_ b)
                            (take (Z.to_nat (WritableBytes b)) got)) in
  n <= WritableBytes b ->
  ReadFd b buff Errno (ReadReady pending)
  = Ok (mkFdRet (with_writePos filled (writePos_ b + n)) Errno n) /\
  wf (with_writePos filled (writePos_ b + n)) /\
  readable (with_writePos filled (writePos_ b + n)) = readable b ++ got.
Proof.
  intros Hwf got n filled Hfit. pose proof (wf_bounds b Hwf) as Hb.
  pose proof (wf_WritableBytes b Hwf) as HW.
  rewrite vector_max_size_eq in Hb.
  rewrite ReadFd_unfold_ready. fold got. fold n. fold filled.
  rewrite (size_t_small n) by (rewrite SIZE_MOD_eq; unfold n; lia).
  destruct (Z.leb_spec n (WritableBytes b)) as [_|Hover]; [|lia].
  assert (Hall : take (Z.to_nat (WritableBytes b)) got = got)
    by (apply take_ge; unfold n in Hfit; lia).
  unfold filled. rewrite Hall.
  unfold with_writePos, with_buffer. cbn [buffer_ readPos_ writePos_].
  rewrite size_t_small by (rewrite SIZE_MOD_eq; unfold n; lia).
  split; [reflexivity|]. split.
  - unfold wf, cursor_inv. cbn [readPos_ writePos_].
    change (bsize (mkBuffer (store_at (buffer_ b) (writePos_ b) got)
                            (readPos_ b) (writePos_ b + n)))
      with (bsize (with_buffer b (store_at (buffer_ b) (writePos_ b) got))).
    rewrite bsize_store_at by (assumption || (fold n; lia)).
    rewrite vector_max_size_eq. unfold n. lia.
  - apply readable_store_at; [assumption|fold n; lia].
Qed.

(** A successful [readv] with more bytes than the writable region holds: the
    region is filled, the write cursor goes to the end of the storage and the
    capture in the local array is appended. *)
Lemma ReadFd_overflows b buff Errno pending :
  wf b ->
  let got := delivered b pending in
  let n := Z.of_nat (length got) in
  let filled :=
    with_buffer b (store_at (buffer_ b) (writePos_ b)
                            (take (Z.to_nat (WritableBytes b)) got)) in
  let b1 := with_writePos filled (bsize filled) in
  let scratch :=
    drop (Z.to_nat (WritableBytes b)) got ++
    drop (length (drop (Z.to_nat (WritableBytes b)) got)) buff in
  WritableBytes b < n ->
  writePos_ b1 = bsize b /\ wf b1 /\
  ReadFd b buff Errno (ReadReady pending)
  = (b2 ← Append b1 (Some scratch) (n - WritableBytes b);
     Ok (mkFdRet b2 Errno n)) /\
  if growth_refused b1 (n - WritableBytes b)
  then ReadFd b buff Errno (ReadReady pending) = LengthError
  else exists b2,
      ReadFd b buff Errno (ReadReady pending) = Ok (mkFdRet b2 Errno n) /\
      wf b2 /\ readable b2 = readable b ++ got.
Proof.
  intros Hwf got n filled b1 scratch Hover.
  pose proof (wf_bounds b Hwf) as Hb.
  pose proof (wf_WritableBytes b Hwf) as HW.
  assert (HW0 : 0 <= WritableBytes b) by lia.
  destruct (delivered_bound b pending HW0) as [Hn1 Hn2].
  fold got in Hn1, Hn2. fold n in Hn1, Hn2.
  rewrite SSIZE_MAX_eq in Hn2. change sizeof_buff with 65535 in Hn1.
  rewrite vector_max_size_eq in Hb.
  rewrite ReadFd_unfold_ready. fold got. fold n. fold filled. fold b1.
  rewrite (size_t_small n) by (rewrite SIZE_MOD_eq; unfold n; lia).
  destruct (Z.leb_spec n (WritableBytes b)) as [Hfit|_]; [lia|].
  set (iov0 := take (Z.to_nat (WritableBytes b)) got) in *.
  set (iov1 := drop (Z.to_nat (WritableBytes b)) got) in *.
  assert (Hl0 : Z.of_nat (length iov0) = WritableBytes b)
    by (unfold iov0; rewrite length_take; unfold n in Hover; lia).
  assert (Hl1 : Z.of_nat (length iov1) = n - WritableBytes b)
    by (unfold iov1; rewrite length_drop; unfold n in *; lia).
  assert (Hsz : bsize filled = bsize b)
    by (apply bsize_store_at; [assumption|lia]).
  rewrite size_t_small by (rewrite SIZE_MOD_eq; lia).
  fold scratch.
  assert (Hb1 : b1 = mkBuffer (store_at (buffer_ b) (writePos_ b) iov0)
                              (readPos_ b)
                              (writePos_ b + Z.of_nat (length iov0))).
  { unfold b1. rewrite Hsz. unfold filled, with_writePos, with_buffer.
    cbn [buffer_ readPos_]. f_equal. lia. }
  assert (Hwf1 : wf b1).
  { unfold wf, cursor_inv.
    replace (bsize b1) with (bsize b)
      by (unfold b1, with_writePos, bsize; cbn [buffer_]; exact (eq_sym Hsz)).
    unfold b1, with_writePos. cbn [readPos_ writePos_]. rewrite Hsz.
    unfold filled, with_buffer. cbn [readPos_].
    rewrite vector_max_size_eq. lia. }
  assert (Hr1 : readable b1 = readable b ++ iov0)
    by (rewrite Hb1; apply readable_store_at; [assumption|lia]).
  split; [unfold b1, with_writePos; cbn [writePos_]; exact Hsz|].
  split; [exact Hwf1|]. split; [reflexivity|].
  pose proof (Append_spec b1 scratch (n - WritableBytes b) Hwf1) as HA.
  assert (Hk : 0 <= n - WritableBytes b <= vector_max_size)
    by (rewrite vector_max_size_eq; lia).
  assert (Hs : n - WritableBytes b <= Z.of_nat (length scratch))
    by (unfold scratch; rewrite length_app; lia).
  destruct (growth_refused b1 (n - WritableBytes b)).
  - rewrite (HA Hk Hs). reflexivity.
  - destruct (HA Hk Hs) as (b2 & -> & Hwf2 & Hr2 & _).
    exists b2. split; [reflexivity|]. split; [assumption|].
    rewrite Hr2, Hr1. rewrite <- (assoc_L (++)). f_equal.
    replace (Z.to_nat (n - WritableBytes b)) with (length iov1) by lia.
    unfold scratch. rewrite take_app_length. apply take_drop.
Qed.

(** A [write] that takes [k] of the readable bytes: the descriptor gets the
    first [k] bytes of the content, the read cursor moves over them. *)
Lemma WriteFd_room_spec b Errno room :
  wf b ->
  let k := Z.max 0 (Z.min room (ReadableBytes b)) in
  let b' := with_readPos b (readPos_ b + k) in
  WriteFd b Errno (WriteRoom room) = Ok (mkFdRet b' Errno k) /\
  WriteFd_sent b (WriteRoom room) = take (Z.to_nat k) (readable b) /\
  wf b' /\
  readable b' = drop (Z.to_nat k) (readable b) /\
  ReadableBytes b' = ReadableBytes b - k.
Proof.
  intros Hwf k b'. pose proof (wf_bounds b Hwf) as Hb.
  pose proof (wf_ReadableBytes b Hwf) as HR.
  rewrite vector_max_size_eq in Hb.
  assert (Hk : 0 <= k <= writePos_ b - readPos_ b) by (unfold k; lia).
  assert (Hwf' : wf b').
  { unfold wf, cursor_inv, b', with_readPos, bsize. cbn [readPos_ writePos_ buffer_].
    fold (bsize b). rewrite vector_max_size_eq. lia. }
  unfold WriteFd, WriteFd_sent, write.
  fold k.
  destruct (Z.ltb_spec k 0); [lia|].
  unfold Retrieve. cbn [mbind result_bind].
  rewrite (size_t_small k) by (rewrite SIZE_MOD_eq; lia).
  rewrite size_t_small by (rewrite SIZE_MOD_eq; lia).
  fold b'. split; [reflexivity|].
  split; [|split; [exact Hwf'|split]].
  - unfold readable, bytes_at. rewrite HR, take_take.
    f_equal. lia.
  - unfold readable, bytes_at, Peek.
    rewrite (wf_ReadableBytes b') by assumption. rewrite HR.
    unfold b', with_readPos. cbn [readPos_ writePos_ buffer_].
    rewrite !take_drop_commute, drop_drop.
    f_equal; [lia|]. f_equal. lia.
  - rewrite (wf_ReadableBytes b') by assumption. rewrite HR.
    unfold b', with_readPos. cbn [readPos_ writePos_]. lia.
Qed.

(** ** The cursor invariant along the public interface *)

Lemma Buffer_new_wf n :
  0 <= n <= vector_max_size ->
  Buffer_new n = Ok (mkBuffer (replicate (Z.to_nat n) x00) 0 0) /\
  wf (mkBuffer (replicate (Z.to_nat n) x00) 0 0).
Proof.
  intros Hn. unfold Buffer_new.
  rewrite size_t_small
    by (rewrite SIZE_MOD_eq; rewrite vector_max_size_eq in Hn; lia).
  destruct (Z.ltb_spec vector_max_size n); [lia|]. split; [reflexivity|].
  unfold wf, cursor_inv, bsize, vsize. cbn [buffer_ readPos_ writePos_].
  rewrite length_replicate. lia.
Qed.

Lemma HasWritten_wf b len :
  wf b -> 0 <= len <= WritableBytes b ->
  HasWritten b len = Ok (with_writePos b (writePos_ b + len)) /\
  wf (with_writePos b (writePos_ b + len)).
Proof.
  intros Hwf Hlen. pose proof (wf_bounds b Hwf) as Hb.
  rewrite wf_WritableBytes in Hlen by assumption.
  unfold HasWritten. rewrite size_t_small by lia. split; [reflexivity|].
  unfold wf, cursor_inv, with_writePos, bsize.
  cbn [buffer_ readPos_ writePos_]. fold (bsize b). lia.
Qed.

Lemma Retrieve_wf b len :
  wf b -> 0 <= len <= ReadableBytes b ->
  Retrieve b len = Ok (with_readPos b (readPos_ b + len)) /\
  wf (with_readPos b (readPos_ b + len)).
Proof.
  intros Hwf Hlen. pose proof (wf_bounds b Hwf) as Hb.
  rewrite wf_ReadableBytes in Hlen by assumption.
  unfold Retrieve. rewrite size_t_small by lia. split; [reflexivity|].
  unfold wf, cursor_inv, with_readPos, bsize.
  cbn [buffer_ readPos_ writePos_]. fold (bsize b). lia.
Qed.

Lemma RetrieveUntil_wf b end_ :
  wf b -> Peek b <= end_ <= BeginWrite b ->
  RetrieveUntil b end_ = Ok (with_readPos b end_) /\
  wf (with_readPos b end_).
Proof.
  intros Hwf Hend. pose proof (wf_bounds b Hwf) as Hb.
  unfold Peek, BeginWrite in Hend.
  unfold RetrieveUntil, Peek.
  destruct (Z.leb_spec (readPos_ b) end_); [|lia].
  cbn [assert_ mbind result_bind].
  rewrite (size_t_small (end_ - readPos_ b)) by lia.
  destruct (Retrieve_wf b (end_ - readPos_ b) Hwf) as [-> Hwf'].
  - rewrite wf_ReadableBytes by assumption. lia.
  - replace (readPos_ b + (end_ - readPos_ b)) with end_ in * by lia.
    split; [reflexivity|assumption].
Qed.

Lemma RetrieveAll_wf b :
  wf b ->
  exists b', RetrieveAll b = Ok b' /\ wf b' /\
             readPos_ b' = 0 /\ writePos_ b' = 0 /\ bsize b' = bsize b.
Proof.
  intros Hwf. pose proof (wf_bounds b Hwf) as Hb.
  eexists. split; [reflexivity|].
  unfold wf, cursor_inv, bsize, vsize in *. cbn [buffer_ readPos_ writePos_].
  rewrite length_replicate. lia.
Qed.

Lemma run_preserves_wf c b :
  wf b -> stated_pre c b -> size_fits c b ->
  match run c b with
  | Ok b' => wf b'
  | LengthError => True
  | AssertFail | OutOfBounds => False
  end.
Proof.
  intros Hwf Hpre Hfit. pose proof (wf_bounds b Hwf) as Hb.
  destruct c as [len|len|len|end_| | |str len|str|buff|buff Errno fd|Errno fd];
    cbn [run stated_pre size_fits] in *.
  - pose proof (EnsureWriteable_spec b len Hwf (proj1 Hpre) Hfit) as HE.
    destruct (growth_refused b len); [rewrite HE; exact I|].
    destruct HE as (b' & -> & Hwf' & _). exact Hwf'.
  - destruct (HasWritten_wf b len Hwf Hpre) as [-> Hwf']. exact Hwf'.
  - destruct (Retrieve_wf b len Hwf Hpre) as [-> Hwf']. exact Hwf'.
  - destruct (RetrieveUntil_wf b end_ Hwf Hpre) as [-> Hwf']. exact Hwf'.
  - destruct (RetrieveAll_wf b Hwf) as (b' & -> & Hwf' & _). exact Hwf'.
  - unfold RetrieveAllToStr.
    destruct (RetrieveAll_wf b Hwf) as (b' & -> & Hwf' & _). exact Hwf'.
  - pose proof (Append_spec b str len Hwf) as HA.
    destruct (growth_refused b len).
    + rewrite HA by lia. exact I.
    + destruct HA as (b' & -> & Hwf' & _); [lia..|exact Hwf'].
  - unfold Append_string.
    pose proof (Append_spec b str (Z.of_nat (length str)) Hwf) as HA.
    destruct (growth_refused b (Z.of_nat (length str))).
    + rewrite HA by lia. exact I.
    + destruct HA as (b' & -> & Hwf' & _); [lia..|exact Hwf'].
  - unfold Append_Buffer. pose proof (wf_bounds buff Hpre) as Hbb.
    pose proof (wf_ReadableBytes buff Hpre) as HRb.
    assert (Hlen : ReadableBytes buff
                   <= Z.of_nat (length (drop (Z.to_nat (Peek buff))
                                             (buffer_ buff)))).
    { rewrite length_drop. unfold Peek, bsize, vsize in *. lia. }
    pose proof (Append_spec b (drop (Z.to_nat (Peek buff)) (buffer_ buff))
                  (ReadableBytes buff) Hwf) as HA.
    rewrite vector_max_size_eq in *.
    destruct (growth_refused b (ReadableBytes buff)).
    + rewrite HA by lia. exact I.
    + destruct HA as (b' & -> & Hwf' & _); [lia..|exact Hwf'].
  - destruct fd as [e|pending].
    + rewrite ReadFd_error. exact Hwf.
    + destruct (Z_le_gt_dec (Z.of_nat (length (delivered b pending)))
                            (WritableBytes b)) as [Hle|Hgt].
      * destruct (ReadFd_fits b buff Errno pending Hwf Hle) as (-> & Hwf' & _).
        exact Hwf'.
      * destruct (ReadFd_overflows b buff Errno pending Hwf) as (_ & _ & _ & HR);
          [lia|].
        destruct (growth_refused _ _); [rewrite HR; exact I|].
        destruct HR as (b2 & -> & Hwf2 & _). exact Hwf2.
  - destruct fd as [e|room].
    + rewrite WriteFd_error. exact Hwf.
    + destruct (WriteFd_room_spec b Errno room Hwf) as (-> & _ & Hwf' & _).
      exact Hwf'.
Qed.

(** * The specified properties, one by one *)

(** ** Retrieve *)

(** C1, as stated, fails: [Retrieve] has no bounds check. On the buffer that
    holds "hello" (5 readable bytes) the call [Retrieve(6)] returns normally
    and leaves the read cursor at 6, past the write cursor at 5; so it is not
    true that every [len > ReadableBytes()] is rejected. *)
Lemma C1_retrieve_beyond_readable_not_rejected :
  (wf hello_buffer /\ ReadableBytes hello_buffer = 5 /\
   Retrieve hello_buffer 6 = Ok (mkBuffer (buffer_ hello_buffer) 6 5)) /\
  ~ (forall (b : Buffer) (len : Z),
        wf b -> ReadableBytes b < len < SIZE_MOD ->
        is_ok (Retrieve b len) = false).
Proof.
  assert (Hwf : wf hello_buffer) by (apply wfb_spec; reflexivity).
  split; [split; [exact Hwf|split; reflexivity]|].
  intros H. specialize (H hello_buffer 6 Hwf).
  cbn in H. discriminate H. split; reflexivity.
Qed.

(** C1, amended: [Retrieve(len)] performs no bounds check and never fails.
    For a well-formed buffer and a [len] with [readPos_ + len] below 2^64 it
    returns normally with the read cursor advanced by exactly [len] and
    nothing else changed; when [len <= ReadableBytes()] the cursor invariant
    is kept, and when [len > ReadableBytes()] the read cursor ends up past
    the write cursor. *)
Theorem C1_Retrieve_unchecked (b : Buffer) (len : Z) :
  wf b -> 0 <= len -> readPos_ b + len < SIZE_MOD ->
  Retrieve b len = Ok (with_readPos b (readPos_ b + len)) /\
  (len <= ReadableBytes b -> wf (with_readPos b (readPos_ b + len))) /\
  (ReadableBytes b < len ->
   writePos_ (with_readPos b (readPos_ b + len))
   < readPos_ (with_readPos b (readPos_ b + len))).
Proof.
  intros Hwf Hlen Hfit. pose proof (wf_bounds b Hwf) as Hb.
  split; [|split].
  - unfold Retrieve. rewrite size_t_small by lia. reflexivity.
  - intros Hle. apply Retrieve_wf; [assumption|lia].
  - intros Hgt. rewrite wf_ReadableBytes in Hgt by assumption.
    cbn [with_readPos readPos_ writePos_]. lia.
Qed.

Lemma C1_Retrieve_unchecked_witness :
  wf hello_buffer /\
  Retrieve hello_buffer 6 = Ok (with_readPos hello_buffer (0 + 6)) /\
  Retrieve hello_buffer 2 = Ok (with_readPos hello_buffer (0 + 2)).
Proof.
  assert (Hwf : wf hello_buffer) by (apply wfb_spec; reflexivity).
  split; [exact Hwf|]. split.
  - apply (C1_Retrieve_unchecked hello_buffer 6 Hwf); [lia|reflexivity].
  - apply (C1_Retrieve_unchecked hello_buffer 2 Hwf); [lia|reflexivity].
Defined.

(** ** ReadFd *)

(** C2: a [readv] that succeeds with [n] bytes [got]. When [n] is at most
    the writable size before the call, the function only moves the write
    cursor by [n] over the bytes the kernel stored in the writable region.
    Otherwise the write cursor is set to the storage size and the remaining
    [n - writable] bytes, captured in the local array, go through [Append];
    unless the vector refuses to grow, the call returns [n] and the content
    is the old content followed by all [n] bytes in order. *)
Theorem C2_ReadFd_success (b : Buffer) (buff : list byte) (Errno : Z)
    (pending : list byte) :
  wf b ->
  let got := delivered b pending in
  let n := Z.of_nat (length got) in
  let filled :=
    with_buffer b (store_at (buffer_ b) (writePos_ b)
                            (take (Z.to_nat (WritableBytes b)) got)) in
  if n <=? WritableBytes b then
    ReadFd b buff Errno (ReadReady pending)
    = Ok (mkFdRet (with_writePos filled (writePos_ b + n)) Errno n) /\
    wf (with_writePos filled (writePos_ b + n)) /\
    readable (with_writePos filled (writePos_ b + n)) = readable b ++ got
  else
    let b1 := with_writePos filled (bsize filled) in
    let scratch :=
      drop (Z.to_nat (WritableBytes b)) got ++
      drop (length (drop (Z.to_nat (WritableBytes b)) got)) buff in
    writePos_ b1 = bsize b /\ wf b1 /\
    ReadFd b buff Errno (ReadReady pending)
    = (b2 ← Append b1 (Some scratch) (n - WritableBytes b);
       Ok (mkFdRet b2 Errno n)) /\
    if growth_refused b1 (n - WritableBytes b)
    then ReadFd b buff Errno (ReadReady pending) = LengthError
    else exists b2,
        ReadFd b buff Errno (ReadReady pending) = Ok (mkFdRet b2 Errno n) /\
        wf b2 /\ readable b2 = readable b ++ got.
Proof.
  intros Hwf got n filled.
  destruct (Z.leb_spec n (WritableBytes b)) as [Hfit|Hover].
  - exact (ReadFd_fits b buff Errno pending Hwf Hfit).
  - exact (ReadFd_overflows b buff Errno pending Hwf Hover).
Qed.

Lemma C2_ReadFd_success_witness :
  wf shifted_buffer /\
  (ReadFd shifted_buffer [] 0 (ReadReady [x21])
   = Ok (mkFdRet (mkBuffer ([x61; x62; x63] ++ hello ++ [x21; x00]) 3 9) 0 1) /\
   readable (mkBuffer ([x61; x62; x63] ++ hello ++ [x21; x00]) 3 9)
   = readable shifted_buffer ++ [x21]) /\
  (exists b2,
      ReadFd shifted_buffer [] 0 (ReadReady [x20; x77; x6f; x72; x6c; x64])
      = Ok (mkFdRet b2 0 6) /\
      readable b2 = readable shifted_buffer ++ [x20; x77; x6f; x72; x6c; x64]).
Proof.
  assert (Hwf : wf shifted_buffer) by (apply wfb_spec; reflexivity).
  split; [exact Hwf|]. split.
  - pose proof (C2_ReadFd_success shifted_buffer [] 0 [x21] Hwf) as H.
    destruct H as (H1 & _ & H2). split; [exact H1|exact H2].
  - pose proof (C2_ReadFd_success shifted_buffer [] 0
                  [x20; x77; x6f; x72; x6c; x64] Hwf) as H.
    destruct H as (_ & _ & _ & b2 & H1 & _ & H2).
    exists b2. split; [exact H1|exact H2].
Defined.

(** ** MakeSpace_ and EnsureWriteable at a length that wraps around *)

(** C3, evaluated where the code departs from it: on the buffer that holds
    "hello" (capacity 10, write cursor 5) and [len = 2^64 - 3], the writable
    and prependable sizes together are below [len], so [MakeSpace_] takes the
    growth branch; [writePos_ + len + 1] wraps around to 3 and the storage is
    cut down to 3 bytes instead of growing, the last two content bytes
    behind its end. *)
Theorem C3_MakeSpace_wraps_and_shrinks :
  wf hello_buffer /\
  WritableBytes hello_buffer < huge_len /\
  WritableBytes hello_buffer + PrependableBytes hello_buffer < huge_len /\
  size_t (writePos_ hello_buffer + huge_len + 1) = 3 /\
  MakeSpace_ hello_buffer huge_len = Ok (mkBuffer (take 3 hello) 0 5).
Proof.
  split; [apply wfb_spec; reflexivity|].
  repeat split; reflexivity.
Qed.

(** C4, evaluated where the code departs from it: [EnsureWriteable] has no
    precondition, yet from a well-formed buffer the call with
    [len = 2^64 - 3] returns normally with the write cursor (5) beyond the
    end of the storage (3 bytes). *)
Theorem C4_EnsureWriteable_breaks_cursor_invariant :
  wf hello_buffer /\
  stated_pre (CEnsureWriteable huge_len) hello_buffer /\
  exists b',
    run (CEnsureWriteable huge_len) hello_buffer = Ok b' /\
    cursor_invb b' = false /\
    bsize b' = 3 /\ writePos_ b' = 5.
Proof.
  split; [apply wfb_spec; reflexivity|].
  split; [split; [discriminate|reflexivity]|].
  eexists. split; [reflexivity|]. repeat split; reflexivity.
Qed.

(** ** Failing descriptors *)

(** C6: when [readv] or [write] fails with errno [e], the function stores [e]
    through [Errno], returns the negative result, and the buffer (cursors and
    storage) is exactly what it was. *)
Theorem C6_failed_syscall_leaves_buffer (b : Buffer) (buff : list byte)
    (Errno e : Z) :
  ReadFd b buff Errno (ReadError e) = Ok (mkFdRet b e (-1)) /\
  WriteFd b Errno (WriteError e) = Ok (mkFdRet b e (-1)).
Proof. split; [apply ReadFd_error|apply WriteFd_error]. Qed.

(** ** WriteFd *)

(** C7: a [write] that takes [k] of the readable bytes advances the read
    cursor by exactly [k] and changes nothing else; the descriptor received
    the first [k] content bytes and the other [ReadableBytes() - k] stay
    readable. A second call on a descriptor with room for them drains the
    rest: nothing is left readable, and the two calls together handed over
    the original content. *)
Theorem C7_WriteFd_partial_write (b : Buffer) (Errno k : Z) :
  wf b -> 0 <= k <= ReadableBytes b ->
  let b1 := with_readPos b (readPos_ b + k) in
  WriteFd b Errno (WriteRoom k) = Ok (mkFdRet b1 Errno k) /\
  WriteFd_sent b (WriteRoom k) = take (Z.to_nat k) (readable b) /\
  readable b1 = drop (Z.to_nat k) (readable b) /\
  ReadableBytes b1 = ReadableBytes b - k /\
  forall room, ReadableBytes b1 <= room ->
    exists b2,
      WriteFd b1 Errno (WriteRoom room)
      = Ok (mkFdRet b2 Errno (ReadableBytes b1)) /\
      ReadableBytes b2 = 0 /\
      WriteFd_sent b (WriteRoom k) ++ WriteFd_sent b1 (WriteRoom room)
      = readable b.
Proof.
  intros Hwf Hk b1.
  pose proof (wf_bounds b Hwf) as Hb.
  pose proof (wf_ReadableBytes b Hwf) as HR.
  pose proof (WriteFd_room_spec b Errno k Hwf) as H. cbn zeta in H.
  replace (Z.max 0 (Z.min k (ReadableBytes b))) with k in H by lia.
  fold b1 in H. destruct H as (H1 & H2 & Hwf1 & H3 & H4).
  split; [exact H1|]. split; [exact H2|]. split; [exact H3|].
  split; [exact H4|].
  intros room Hroom.
  pose proof (WriteFd_room_spec b1 Errno room Hwf1) as H. cbn zeta in H.
  replace (Z.max 0 (Z.min room (ReadableBytes b1)))
    with (ReadableBytes b1) in H by lia.
  destruct H as (G1 & G2 & _ & _ & G4).
  eexists. split; [exact G1|]. split; [lia|].
  rewrite H2, G2, H3.
  rewrite (take_ge (drop (Z.to_nat k) (readable b))).
  - apply take_drop.
  - rewrite length_drop. pose proof (length_readable b Hwf). lia.
Qed.

Lemma C7_WriteFd_partial_write_witness :
  wf shifted_buffer /\ 0 <= 2 <= ReadableBytes shifted_buffer /\
  WriteFd shifted_buffer 0 (WriteRoom 2)
  = Ok (mkFdRet (with_readPos shifted_buffer (3 + 2)) 0 2).
Proof.
  assert (Hwf : wf shifted_buffer) by (apply wfb_spec; reflexivity).
  assert (Hk : 0 <= 2 <= ReadableBytes shifted_buffer)
    by (split; discriminate).
  split; [exact Hwf|]. split; [exact Hk|].
  exact (proj1 (C7_WriteFd_partial_write shifted_buffer 0 2 Hwf Hk)).
Defined.

(** ** Append *)

(** C8: appending a byte sequence [B] (of any length a string can have,
    0 included) and then reading [ReadableBytes()] bytes from [Peek()]
    yields the previously readable bytes followed by exactly the bytes of
    [B], in order; on an empty buffer that is [B] itself. The one other
    outcome is the vector refusing to grow. *)
Theorem C8_Append_round_trip (b : Buffer) (B : list byte) :
  wf b -> Z.of_nat (length B) <= vector_max_size ->
  if growth_refused b (Z.of_nat (length B))
  then Append_string b B = LengthError
  else exists b',
      Append_string b B = Ok b' /\
      bytes_at (buffer_ b') (Peek b') (ReadableBytes b')
      = bytes_at (buffer_ b) (Peek b) (ReadableBytes b) ++ B /\
      (ReadableBytes b = 0 ->
       bytes_at (buffer_ b') (Peek b') (ReadableBytes b') = B).
Proof.
  intros Hwf HB.
  pose proof (Append_spec b B (Z.of_nat (length B)) Hwf) as HA.
  unfold Append_string.
  destruct (growth_refused b (Z.of_nat (length B))).
  - apply HA; lia.
  - destruct HA as (b' & HA & _ & Hr & _); [lia..|].
    exists b'. split; [exact HA|].
    rewrite Nat2Z.id, take_ge in Hr by lia.
    fold (readable b'). fold (readable b). split; [exact Hr|].
    intros Hempty. rewrite Hr. unfold readable, bytes_at.
    rewrite Hempty. reflexivity.
Qed.

Lemma C8_Append_round_trip_witness :
  wf shifted_buffer /\
  exists b',
    Append_string shifted_buffer [x20; x77; x6f; x72; x6c; x64] = Ok b' /\
    bytes_at (buffer_ b') (Peek b') (ReadableBytes b')
    = hello ++ [x20; x77; x6f; x72; x6c; x64].
Proof.
  assert (Hwf : wf shifted_buffer) by (apply wfb_spec; reflexivity).
  split; [exact Hwf|].
  pose proof (C8_Append_round_trip shifted_buffer
                [x20; x77; x6f; x72; x6c; x64] Hwf) as H.
  destruct H as (b' & H1 & H2 & _); [discriminate|].
  exists b'. split; [exact H1|exact H2].
Defined.

(** ** The local array of ReadFd *)

(** C9, as stated, fails: the second destination of the scatter read is the
    local array of 65535 bytes, not 65536; a descriptor with 65536 bytes
    pending hands over only 65535 of them to a buffer without writable
    space. *)
Lemma C9_scratch_is_not_64KiB :
  iov_len (snd (ReadFd_iov hello_buffer)) = 65535 /\
  ~ (forall b : Buffer, iov_len (snd (ReadFd_iov b)) = 65536) /\
  rv_len (readv (ReadReady (replicate (Z.to_nat 65536) x00)) 0
                (iov_len (snd (ReadFd_iov hello_buffer)))) = 65535.
Proof.
  split; [reflexivity|]. split.
  - intros H. specialize (H hello_buffer). discriminate H.
  - vm_compute. reflexivity.
Qed.

(** C9, amended: in every call of [ReadFd] the second scatter destination is
    the local array, of exactly 65535 bytes (one byte less than 64 KiB), so
    at most 65535 bytes are captured there; the array is a transient local:
    what it held on entry has no influence on the result, and the buffer
    keeps no field for it. *)
Theorem C9_scratch_region (b : Buffer) :
  snd (ReadFd_iov b) = mkIovec LocalArray 65535 /\
  (forall fd : read_end,
      Z.of_nat (length (rv_iov1 (readv fd (iov_len (fst (ReadFd_iov b)))
                                       (iov_len (snd (ReadFd_iov b))))))
      <= 65535) /\
  (forall (buff1 buff2 : list byte) (Errno : Z) (fd : read_end),
      ReadFd b buff1 Errno fd = ReadFd b buff2 Errno fd).
Proof.
  split; [reflexivity|]. split.
  - intros [e|pending]; cbn [ReadFd_iov fst snd iov_len readv rv_iov1 length].
    + lia.
    + pose proof (size_t_range (bsize b - writePos_ b)) as HW.
      fold (WritableBytes b) in HW.
      rewrite length_drop, length_take.
      change sizeof_buff with 65535. lia.
  - intros. apply ReadFd_scratch_irrelevant.
Qed.

(** ** End of stream *)

(** C10: when the scatter read of [ReadFd] returns 0, the function returns 0
    and the buffer (both cursors, the storage and its size) and the caller's
    [*Errno] are what they were before the call. *)
Theorem C10_ReadFd_end_of_stream (b : Buffer) (buff : list byte) (Errno : Z)
    (fd : read_end) :
  typed b ->
  rv_len (readv fd (iov_len (fst (ReadFd_iov b)))
                (iov_len (snd (ReadFd_iov b)))) = 0 ->
  ReadFd b buff Errno fd = Ok (mkFdRet b Errno 0).
Proof.
  intros [_ Hw] Hzero. destruct fd as [e|pending].
  - discriminate Hzero.
  - cbn [ReadFd_iov fst snd iov_len readv rv_len] in Hzero.
    fold (delivered b pending) in Hzero.
    assert (Hgot : delivered b pending = [])
      by (apply length_zero_iff_nil; lia).
    rewrite ReadFd_unfold_ready. cbn zeta. rewrite Hgot.
    rewrite take_nil, store_at_nil, with_buffer_same.
    cbn [length Z.of_nat].
    pose proof (size_t_range (bsize b - writePos_ b)) as HW.
    fold (WritableBytes b) in HW.
    change (Z.of_nat 0) with 0. change (size_t 0) with 0.
    destruct (Z.leb_spec 0 (WritableBytes b)); [|lia].
    rewrite Z.add_0_r, size_t_small by assumption.
    destruct b; reflexivity.
Qed.

Lemma C10_ReadFd_end_of_stream_witness :
  typed shifted_buffer /\
  ReadFd shifted_buffer [] 7 (ReadReady []) = Ok (mkFdRet shifted_buffer 7 0).
Proof.
  assert (Ht : typed shifted_buffer)
    by (apply wf_typed, wfb_spec; reflexivity).
  split; [exact Ht|].
  apply (C10_ReadFd_end_of_stream shifted_buffer [] 7 (ReadReady []) Ht).
  reflexivity.
Defined.

(** * Further properties of the member functions *)

(** ** The three ways [Append] finds its space *)

(** Enough writable space: the bytes are stored at the write cursor, nothing
    else moves. *)
Lemma Append_in_place b src len :
  wf b -> 0 <= len <= WritableBytes b -> len <= Z.of_nat (length src) ->
  Append b (Some src) len
  = Ok (mkBuffer (store_at (buffer_ b) (writePos_ b) (take (Z.to_nat len) src))
                 (readPos_ b) (writePos_ b + len)).
Proof.
  intros Hwf Hlen Hsrc. pose proof (wf_bounds b Hwf) as Hb.
  pose proof (wf_WritableBytes b Hwf) as HW.
  unfold Append, EnsureWriteable.
  destruct (Z.ltb_spec (WritableBytes b) len); [lia|].
  cbn [mbind result_bind].
  destruct (Z.leb_spec len (WritableBytes b)); [|lia].
  cbn [assert_ mbind result_bind]. unfold BeginWrite.
  unfold bsize, vsize in *.
  rewrite copy_from_ok by lia.
  cbn [mbind result_bind]. unfold HasWritten, with_writePos, with_buffer.
  cbn [buffer_ readPos_ writePos_].
  rewrite size_t_small by lia.
  unfold store_at. rewrite length_take, Nat.min_l by lia.
  reflexivity.
Qed.

(** Not enough writable space, but enough together with the consumed space
    before the content: the content moves to the front and the bytes follow
    it; the storage keeps its size. *)
Lemma Append_compacting b src len :
  wf b -> WritableBytes b < len ->
  len <= WritableBytes b + PrependableBytes b ->
  len <= Z.of_nat (length src) ->
  Append b (Some src) len
  = Ok (mkBuffer (readable b ++ take (Z.to_nat len) src ++
                  drop (Z.to_nat (ReadableBytes b + len)) (buffer_ b))
                 0 (ReadableBytes b + len)).
Proof.
  intros Hwf Hsmall Hroom Hsrc. pose proof (wf_bounds b Hwf) as Hb.
  pose proof (wf_WritableBytes b Hwf) as HW.
  pose proof (wf_ReadableBytes b Hwf) as HR.
  pose proof (length_readable b Hwf) as Hlr.
  unfold PrependableBytes in Hroom.
  unfold Append, EnsureWriteable.
  destruct (Z.ltb_spec (WritableBytes b) len); [|lia].
  rewrite MakeSpace_compact by (unfold PrependableBytes; assumption || lia).
  cbn [mbind result_bind].
  set (v1 := readable b ++ drop (Z.to_nat (ReadableBytes b)) (buffer_ b)).
  assert (Hv1 : Z.of_nat (length v1) = bsize b).
  { unfold v1, bsize, vsize in *. rewrite length_app, length_drop. lia. }
  unfold WritableBytes at 1. unfold bsize, vsize. cbn [buffer_ writePos_].
  rewrite Hv1, size_t_small by lia.
  destruct (Z.leb_spec len (bsize b - ReadableBytes b)); [|lia].
  cbn [assert_ mbind result_bind]. unfold BeginWrite. cbn [buffer_ writePos_].
  rewrite copy_from_ok by lia.
  cbn [mbind result_bind]. unfold HasWritten, with_writePos, with_buffer.
  cbn [buffer_ readPos_ writePos_].
  rewrite size_t_small by lia.
  f_equal. f_equal. f_equal.
  - unfold v1. apply take_app_length'. lia.
  - f_equal. unfold v1.
    rewrite drop_app_ge by lia. rewrite drop_drop. f_equal. lia.
Qed.

(** Not enough space even so: the vector grows to [writePos_ + len + 1]
    bytes, the bytes are stored at the write cursor and one zero byte is left
    behind them. *)
Lemma Append_growing b src len :
  wf b -> WritableBytes b + PrependableBytes b < len ->
  writePos_ b + len + 1 <= vector_max_size ->
  len <= Z.of_nat (length src) ->
  Append b (Some src) len
  = Ok (mkBuffer (take (Z.to_nat (writePos_ b)) (buffer_ b) ++
                  take (Z.to_nat len) src ++ [x00])
                 (readPos_ b) (writePos_ b + len)).
Proof.
  intros Hwf Hneed Hfit Hsrc. pose proof (wf_bounds b Hwf) as Hb.
  pose proof (wf_WritableBytes b Hwf) as HW.
  unfold PrependableBytes in Hneed. rewrite vector_max_size_eq in *.
  unfold Append, EnsureWriteable.
  destruct (Z.ltb_spec (WritableBytes b) len); [|lia].
  rewrite MakeSpace_grow
    by (unfold PrependableBytes; rewrite ?vector_max_size_eq; assumption || lia).
  cbn [mbind result_bind].
  set (k := Z.to_nat (writePos_ b + len + 1 - bsize b)).
  assert (Hk : Z.of_nat k = writePos_ b + len + 1 - bsize b)
    by (unfold k; lia).
  clearbody k.
  unfold WritableBytes at 1. unfold with_buffer, bsize, vsize.
  cbn [buffer_ writePos_].
  rewrite length_app, length_replicate.
  unfold bsize, vsize in *. rewrite SIZE_MOD_eq in *.
  rewrite size_t_small by (rewrite SIZE_MOD_eq; lia).
  destruct (Z.leb_spec len
              (Z.of_nat (length (buffer_ b) + k) - writePos_ b)); [|lia].
  cbn [assert_ mbind result_bind]. unfold BeginWrite. cbn [buffer_ writePos_].
  rewrite copy_from_ok by (rewrite ?length_app, ?length_replicate; lia).
  cbn [mbind result_bind]. unfold HasWritten, with_writePos, with_buffer.
  cbn [buffer_ readPos_ writePos_].
  rewrite size_t_small by (rewrite SIZE_MOD_eq; lia).
  f_equal. f_equal. f_equal.
  - apply take_app_le. lia.
  - f_equal. rewrite drop_app_ge by lia. rewrite drop_replicate.
    replace (k - (Z.to_nat (writePos_ b) + Z.to_nat len - length (buffer_ b)))%nat
      with 1%nat by lia.
    reflexivity.
Qed.

Lemma headroom_not_refused b len :
  writePos_ b + len + 1 <= vector_max_size -> growth_refused b len = false.
Proof.
  intros H. unfold growth_refused.
  destruct (Z.ltb_spec vector_max_size (writePos_ b + len + 1)); [lia|].
  apply andb_false_r.
Qed.

Lemma length_store_at v off d :
  0 <= off -> off + Z.of_nat (length d) <= vsize v ->
  vsize (store_at v off d) = vsize v.
Proof.
  intros Hoff Hfit. unfold vsize, store_at in *.
  rewrite length_store by lia. reflexivity.
Qed.

(** An append that the vector does not refuse goes through; the cursors
    never move to the right of where a plain store would put them and the
    storage never shrinks. *)
Lemma Append_cases b src len :
  wf b -> 0 <= len <= vector_max_size -> len <= Z.of_nat (length src) ->
  growth_refused b len = false ->
  exists b',
    Append b (Some src) len = Ok b' /\ wf b' /\
    readable b' = readable b ++ take (Z.to_nat len) src /\
    readPos_ b' <= readPos_ b /\
    writePos_ b' <= writePos_ b + len /\
    bsize b <= bsize b' /\
    bsize b' <= Z.max (bsize b) (writePos_ b + len + 1) /\
    (len <= WritableBytes b + PrependableBytes b -> bsize b' = bsize b).
Proof.
  intros Hwf Hlen Hsrc Hgr. pose proof (wf_bounds b Hwf) as Hb.
  pose proof (wf_WritableBytes b Hwf) as HW.
  pose proof (wf_ReadableBytes b Hwf) as HR.
  pose proof (length_readable b Hwf) as Hlr.
  pose proof (Append_spec b src len Hwf Hlen Hsrc) as HA.
  rewrite Hgr in HA.
  destruct HA as (b' & HA & Hwf' & Hr & _).
  exists b'. split; [exact HA|]. split; [exact Hwf'|]. split; [exact Hr|].
  assert (Hlt : Z.of_nat (length (take (Z.to_nat len) src)) = len)
    by (rewrite length_take; lia).
  unfold PrependableBytes.
  destruct (Z_le_gt_dec len (WritableBytes b)) as [Hfit|Hover].
  - rewrite Append_in_place in HA by (assumption || lia).
    injection HA as <-. unfold bsize. cbn [buffer_ readPos_ writePos_].
    rewrite length_store_at by (unfold bsize in *; lia). lia.
  - destruct (Z_le_gt_dec len (WritableBytes b + PrependableBytes b))
      as [Hcom|Hgrow].
    + rewrite Append_compacting in HA by (assumption || lia).
      injection HA as <-. unfold bsize, vsize in *.
      cbn [buffer_ readPos_ writePos_].
      rewrite !length_app, length_drop.
      unfold PrependableBytes in Hcom. lia.
    + assert (Hroom : writePos_ b + len + 1 <= vector_max_size)
        by (apply growth_refused_false_fits;
            [unfold PrependableBytes; lia|lia|assumption]).
      rewrite Append_growing in HA by (assumption || lia).
      injection HA as <-. unfold bsize, vsize in *.
      cbn [buffer_ readPos_ writePos_].
      rewrite !length_app, length_take. cbn [length].
      unfold PrependableBytes in Hgrow. lia.
Qed.

Lemma room_not_refused b len :
  len <= WritableBytes b + PrependableBytes b -> growth_refused b len = false.
Proof.
  intros H. unfold growth_refused.
  destruct (Z.ltb_spec (WritableBytes b + PrependableBytes b) len); [lia|].
  rewrite andb_false_r. reflexivity.
Qed.

(** ** Construction and the three regions *)

(** X1: constructing a buffer with a non-negative [int] capacity [n] gives a
    well-formed, empty buffer: nothing prependable, nothing readable, all [n]
    zero bytes writable. *)
Theorem X1_Buffer_new_empty (n : Z) :
  0 <= n <= INT_MAX ->
  exists b,
    Buffer_new n = Ok b /\ wf b /\
    PrependableBytes b = 0 /\ ReadableBytes b = 0 /\ WritableBytes b = n /\
    readable b = [] /\ buffer_ b = replicate (Z.to_nat n) x00.
Proof.
  intros Hn.
  assert (Hn' : 0 <= n <= vector_max_size)
    by (rewrite vector_max_size_eq; change INT_MAX with 2147483647 in Hn; lia).
  destruct (Buffer_new_wf n Hn') as [Heq Hwf].
  eexists. split; [exact Heq|]. split; [exact Hwf|].
  split; [reflexivity|]. split; [reflexivity|].
  split; [|split; reflexivity].
  rewrite wf_WritableBytes by assumption.
  unfold bsize, vsize. cbn [buffer_ writePos_].
  rewrite length_replicate. lia.
Qed.

Lemma X1_Buffer_new_empty_witness :
  exists b, Buffer_new 1024 = Ok b /\ WritableBytes b = 1024.
Proof.
  destruct (X1_Buffer_new_empty 1024) as (b & H1 & _ & _ & _ & H2 & _).
  - split; discriminate.
  - exists b. split; [exact H1|exact H2].
Defined.

(** X2: a negative [int] capacity is converted to a [size_t] beyond
    [max_size()]; the constructor throws and no buffer exists. *)
Theorem X2_Buffer_new_negative_throws (n : Z) :
  - 2 ^ 31 <= n < 0 -> Buffer_new n = LengthError.
Proof.
  intros Hn. unfold Buffer_new.
  assert (Hs : size_t n = n + SIZE_MOD).
  { unfold size_t. replace n with ((n + SIZE_MOD) + (-1) * SIZE_MOD) at 1 by ring.
    rewrite Z.mod_add by (rewrite SIZE_MOD_eq; lia).
    apply Z.mod_small. rewrite SIZE_MOD_eq. lia. }
  rewrite Hs.
  destruct (Z.ltb_spec vector_max_size (n + SIZE_MOD)); [reflexivity|].
  rewrite vector_max_size_eq, SIZE_MOD_eq in *. lia.
Qed.

Lemma X2_Buffer_new_negative_throws_witness : Buffer_new (-1) = LengthError.
Proof.
  apply (X2_Buffer_new_negative_throws (-1)).
  split; [discriminate|reflexivity].
Defined.

(** X3: in a well-formed buffer the three regions tile the storage: the
    prependable, readable and writable sizes add up to [buffer_.size()], and
    the storage is the prependable bytes, the content and the writable bytes
    in that order. *)
Theorem X3_regions_tile_storage (b : Buffer) :
  wf b ->
  PrependableBytes b + ReadableBytes b + WritableBytes b = bsize b /\
  buffer_ b
  = bytes_at (buffer_ b) (BeginPtr_ b) (PrependableBytes b) ++
    bytes_at (buffer_ b) (Peek b) (ReadableBytes b) ++
    bytes_at (buffer_ b) (BeginWrite b) (WritableBytes b).
Proof.
  intros Hwf. pose proof (wf_bounds b Hwf) as Hb.
  rewrite wf_WritableBytes, wf_ReadableBytes by assumption.
  unfold PrependableBytes, BeginPtr_, Peek, BeginWrite, bytes_at.
  split; [lia|].
  change (Z.to_nat 0) with 0%nat. rewrite drop_0.
  unfold bsize, vsize in *.
  rewrite (take_ge (drop (Z.to_nat (writePos_ b)) (buffer_ b)))
    by (rewrite length_drop; lia).
  rewrite take_drop_commute.
  replace (Z.to_nat (readPos_ b) + Z.to_nat (writePos_ b - readPos_ b))%nat
    with (Z.to_nat (writePos_ b)) by lia.
  rewrite <- (take_drop (Z.to_nat (writePos_ b)) (buffer_ b)) at 1.
  rewrite (assoc_L (++)). f_equal.
  rewrite <- (take_drop (Z.to_nat (readPos_ b))
                (take (Z.to_nat (writePos_ b)) (buffer_ b))) at 1.
  f_equal. rewrite take_take. f_equal. lia.
Qed.

Lemma X3_regions_tile_storage_witness :
  PrependableBytes shifted_buffer + ReadableBytes shifted_buffer
  + WritableBytes shifted_buffer = bsize shifted_buffer.
Proof.
  apply (X3_regions_tile_storage shifted_buffer).
  apply wfb_spec. reflexivity.
Defined.

(** ** Moving the cursors *)

(** X4: [HasWritten(len)] with [len] within the writable space makes the
    next [len] bytes of the storage part of the content, behind what was
    readable, and takes them off the writable space. *)
Theorem X4_HasWritten_exposes_bytes (b : Buffer) (len : Z) :
  wf b -> 0 <= len <= WritableBytes b ->
  exists b',
    HasWritten b len = Ok b' /\ wf b' /\
    readable b' = readable b ++ bytes_at (buffer_ b) (BeginWrite b) len /\
    WritableBytes b' = WritableBytes b - len /\
    PrependableBytes b' = PrependableBytes b.
Proof.
  intros Hwf Hlen. pose proof (wf_bounds b Hwf) as Hb.
  destruct (HasWritten_wf b len Hwf Hlen) as [Heq Hwf'].
  pose proof (wf_WritableBytes b Hwf) as HW. rewrite HW in Hlen.
  eexists. split; [exact Heq|]. split; [exact Hwf'|].
  split; [|split; [|reflexivity]].
  - unfold readable, bytes_at, Peek, BeginWrite.
    rewrite (wf_ReadableBytes _ Hwf'), (wf_ReadableBytes _ Hwf).
    cbn [with_writePos buffer_ readPos_ writePos_].
    replace (Z.to_nat (writePos_ b + len - readPos_ b))
      with (Z.to_nat (writePos_ b - readPos_ b) + Z.to_nat len)%nat by lia.
    rewrite <- take_take_drop, drop_drop. do 3 f_equal. lia.
  - rewrite (wf_WritableBytes _ Hwf'), HW.
    unfold bsize. cbn [with_writePos buffer_ writePos_]. lia.
Qed.

Lemma X4_HasWritten_exposes_bytes_witness :
  exists b',
    HasWritten shifted_buffer 2 = Ok b' /\
    readable b' = readable shifted_buffer ++ [x00; x00].
Proof.
  destruct (X4_HasWritten_exposes_bytes shifted_buffer 2)
    as (b' & H1 & _ & H2 & _).
  - apply wfb_spec. reflexivity.
  - split; discriminate.
  - exists b'. split; [exact H1|exact H2].
Defined.

(** X5: [Retrieve(len)] with [len] within the content removes exactly the
    first [len] bytes of the content; the storage and the writable space are
    untouched and the consumed bytes become prependable space. *)
Theorem X5_Retrieve_drops_front (b : Buffer) (len : Z) :
  wf b -> 0 <= len <= ReadableBytes b ->
  exists b',
    Retrieve b len = Ok b' /\ wf b' /\
    readable b' = drop (Z.to_nat len) (readable b) /\
    ReadableBytes b' = ReadableBytes b - len /\
    PrependableBytes b' = PrependableBytes b + len /\
    WritableBytes b' = WritableBytes b /\
    buffer_ b' = buffer_ b.
Proof.
  intros Hwf Hlen.
  destruct (Retrieve_wf b len Hwf Hlen) as [Heq Hwf'].
  pose proof (WriteFd_room_spec b 0 len Hwf) as H. cbn zeta in H.
  replace (Z.max 0 (Z.min len (ReadableBytes b))) with len in H by lia.
  destruct H as (_ & _ & _ & H3 & H4).
  eexists. split; [exact Heq|]. split; [exact Hwf'|].
  split; [exact H3|]. split; [exact H4|].
  split; [reflexivity|]. split; reflexivity.
Qed.

Lemma X5_Retrieve_drops_front_witness :
  exists b',
    Retrieve shifted_buffer 2 = Ok b' /\
    readable b' = drop 2 (readable shifted_buffer).
Proof.
  destruct (X5_Retrieve_drops_front shifted_buffer 2)
    as (b' & H1 & _ & H2 & _).
  - apply wfb_spec. reflexivity.
  - split; discriminate.
  - exists b'. split; [exact H1|exact H2].
Defined.

Lemma size_t_add_idemp_l a c : size_t (size_t a + c) = size_t (a + c).
Proof.
  unfold size_t. apply Z.add_mod_idemp_l. rewrite SIZE_MOD_eq. lia.
Qed.

Lemma size_t_add_idemp_r a c : size_t (a + size_t c) = size_t (a + c).
Proof.
  unfold size_t. apply Z.add_mod_idemp_r. rewrite SIZE_MOD_eq. lia.
Qed.

(** X6: consuming in two steps is consuming the sum, and so is marking
    written: [Retrieve(l1); Retrieve(l2)] leaves the buffer [Retrieve(l1+l2)]
    leaves, the sum taken in [size_t], for every state and all lengths. *)
Theorem X6_cursor_moves_add_up (b : Buffer) (l1 l2 : Z) :
  (b1 ← Retrieve b l1; Retrieve b1 l2) = Retrieve b (size_t (l1 + l2)) /\
  (b1 ← HasWritten b l1; HasWritten b1 l2) = HasWritten b (size_t (l1 + l2)).
Proof.
  unfold Retrieve, HasWritten, with_readPos, with_writePos.
  cbn [mbind result_bind buffer_ readPos_ writePos_].
  rewrite !size_t_add_idemp_l, !size_t_add_idemp_r, !Z.add_assoc.
  split; reflexivity.
Qed.

(** X7: [RetrieveUntil] checks one side only. A position before [Peek()]
    trips the assertion; a position behind [BeginWrite()] is accepted and
    leaves the read cursor behind the write cursor. *)
Theorem X7_RetrieveUntil_checks_lower_bound_only (b : Buffer) (end_ : Z) :
  wf b ->
  (end_ < Peek b -> RetrieveUntil b end_ = AssertFail) /\
  (BeginWrite b < end_ < SIZE_MOD ->
   RetrieveUntil b end_ = Ok (with_readPos b end_) /\
   writePos_ (with_readPos b end_) < readPos_ (with_readPos b end_)).
Proof.
  intros Hwf. pose proof (wf_bounds b Hwf) as Hb.
  unfold RetrieveUntil, Peek, BeginWrite. split.
  - intros Hlow. destruct (Z.leb_spec (readPos_ b) end_); [lia|]. reflexivity.
  - intros Hhigh. destruct (Z.leb_spec (readPos_ b) end_); [|lia].
    cbn [assert_ mbind result_bind]. unfold Retrieve.
    rewrite size_t_add_idemp_r.
    replace (readPos_ b + (end_ - readPos_ b)) with end_ by lia.
    rewrite size_t_small by lia.
    split; [reflexivity|]. cbn [with_readPos readPos_ writePos_]. lia.
Qed.

Lemma X7_RetrieveUntil_checks_lower_bound_only_witness :
  RetrieveUntil shifted_buffer 2 = AssertFail /\
  RetrieveUntil shifted_buffer 9 = Ok (with_readPos shifted_buffer 9).
Proof.
  assert (Hwf : wf shifted_buffer) by (apply wfb_spec; reflexivity).
  split.
  - apply (X7_RetrieveUntil_checks_lower_bound_only shifted_buffer 2 Hwf).
    reflexivity.
  - apply (X7_RetrieveUntil_checks_lower_bound_only shifted_buffer 9 Hwf).
    split; reflexivity.
Defined.

(** X8: [RetrieveUntil(end)] for a position inside the content (as a scan of
    the content returns it) is [Retrieve(end - Peek())]: it removes the bytes
    before that position and keeps those from it on; with
    [end = BeginWrite()] nothing is left readable. *)
Theorem X8_RetrieveUntil_consumes_up_to (b : Buffer) (end_ : Z) :
  wf b -> Peek b <= end_ <= BeginWrite b ->
  exists b',
    RetrieveUntil b end_ = Ok b' /\
    Retrieve b (end_ - Peek b) = Ok b' /\
    wf b' /\
    readable b' = drop (Z.to_nat (end_ - Peek b)) (readable b) /\
    (end_ = BeginWrite b -> ReadableBytes b' = 0 /\ readable b' = []).
Proof.
  intros Hwf Hend. pose proof (wf_bounds b Hwf) as Hb.
  pose proof (wf_ReadableBytes b Hwf) as HR.
  destruct (RetrieveUntil_wf b end_ Hwf Hend) as [Heq _].
  unfold Peek, BeginWrite in *.
  destruct (Retrieve_wf b (end_ - readPos_ b) Hwf) as [Heq2 Hwf']; [lia|].
  replace (readPos_ b + (end_ - readPos_ b)) with end_ in * by lia.
  pose proof (WriteFd_room_spec b 0 (end_ - readPos_ b) Hwf) as H.
  cbn zeta in H.
  replace (Z.max 0 (Z.min (end_ - readPos_ b) (ReadableBytes b)))
    with (end_ - readPos_ b) in H by lia.
  replace (readPos_ b + (end_ - readPos_ b)) with end_ in H by lia.
  destruct H as (_ & _ & _ & H3 & H4).
  exists (with_readPos b end_).
  split; [exact Heq|]. split; [exact Heq2|]. split; [exact Hwf'|].
  split; [exact H3|].
  intros ->. split; [lia|].
  apply length_zero_iff_nil.
  pose proof (length_readable _ Hwf') as Hl.
  cbn [with_readPos readPos_ writePos_] in Hl. lia.
Qed.

Lemma X8_RetrieveUntil_consumes_up_to_witness :
  exists b',
    RetrieveUntil shifted_buffer 5 = Ok b' /\
    readable b' = drop 2 (readable shifted_buffer).
Proof.
  destruct (X8_RetrieveUntil_consumes_up_to shifted_buffer 5)
    as (b' & H1 & _ & _ & H2 & _).
  - apply wfb_spec. reflexivity.
  - split; discriminate.
  - exists b'. split; [exact H1|exact H2].
Defined.

(** ** Draining *)

(** X9: [RetrieveAll] puts a buffer, whatever its cursors and bytes were, in
    the state of a freshly constructed buffer of the same capacity: cursors
    at 0, every byte zero, the whole storage writable. *)
Theorem X9_RetrieveAll_is_fresh (b : Buffer) :
  bsize b <= vector_max_size ->
  RetrieveAll b = Buffer_new (bsize b) /\
  exists b',
    RetrieveAll b = Ok b' /\ wf b' /\ bsize b' = bsize b /\
    ReadableBytes b' = 0 /\ PrependableBytes b' = 0 /\
    WritableBytes b' = bsize b.
Proof.
  intros Hmax.
  assert (H0 : 0 <= bsize b <= vector_max_size)
    by (unfold bsize, vsize in *; lia).
  destruct (Buffer_new_wf (bsize b) H0) as [Hnew Hwf].
  assert (Heq : RetrieveAll b = Buffer_new (bsize b)).
  { rewrite Hnew. unfold RetrieveAll, bsize, vsize. rewrite Nat2Z.id.
    reflexivity. }
  split; [exact Heq|].
  eexists. split; [rewrite Heq; exact Hnew|]. split; [exact Hwf|].
  assert (Hsz : bsize (mkBuffer (replicate (Z.to_nat (bsize b)) x00) 0 0)
                = bsize b).
  { unfold bsize at 1. unfold vsize. cbn [buffer_].
    rewrite length_replicate. lia. }
  split; [exact Hsz|]. split; [reflexivity|]. split; [reflexivity|].
  rewrite wf_WritableBytes by assumption. rewrite Hsz.
  cbn [writePos_]. lia.
Qed.

Lemma X9_RetrieveAll_is_fresh_witness :
  RetrieveAll shifted_buffer = Buffer_new 10.
Proof.
  apply (X9_RetrieveAll_is_fresh shifted_buffer). discriminate.
Defined.

(** X10: [RetrieveAllToStr] returns the whole content, in order, and leaves
    the buffer as [RetrieveAll] does: empty, zeroed, with its capacity
    kept. *)
Theorem X10_RetrieveAllToStr_returns_content (b : Buffer) :
  wf b ->
  exists b',
    RetrieveAllToStr b = Ok (b', readable b) /\
    RetrieveAll b = Ok b' /\
    wf b' /\ ReadableBytes b' = 0 /\ readable b' = [] /\
    bsize b' = bsize b /\
    Z.of_nat (length (readable b)) = ReadableBytes b.
Proof.
  intros Hwf. pose proof (wf_bounds b Hwf) as Hb.
  destruct (RetrieveAll_wf b Hwf) as (b' & Heq & Hwf' & Hr & Hw & Hsz).
  exists b'. unfold RetrieveAllToStr. rewrite Heq.
  cbn [mbind result_bind]. fold (readable b).
  split; [reflexivity|]. split; [reflexivity|]. split; [exact Hwf'|].
  assert (HR0 : ReadableBytes b' = 0)
    by (rewrite wf_ReadableBytes by assumption; lia).
  split; [exact HR0|]. split.
  - unfold readable, bytes_at. rewrite HR0. reflexivity.
  - split; [exact Hsz|].
    rewrite length_readable, wf_ReadableBytes by assumption. reflexivity.
Qed.

Lemma X10_RetrieveAllToStr_returns_content_witness :
  exists b', RetrieveAllToStr shifted_buffer = Ok (b', hello).
Proof.
  destruct (X10_RetrieveAllToStr_returns_content shifted_buffer)
    as (b' & H1 & _).
  - apply wfb_spec. reflexivity.
  - exists b'. exact H1.
Defined.

Lemma Retrieve_readable b len :
  wf b -> 0 <= len <= ReadableBytes b ->
  Retrieve b len = Ok (with_readPos b (readPos_ b + len)) /\
  wf (with_readPos b (readPos_ b + len)) /\
  readable (with_readPos b (readPos_ b + len))
  = drop (Z.to_nat len) (readable b) /\
  ReadableBytes (with_readPos b (readPos_ b + len)) = ReadableBytes b - len.
Proof.
  intros Hwf Hlen.
  destruct (Retrieve_wf b len Hwf Hlen) as [Heq Hwf'].
  pose proof (WriteFd_room_spec b 0 len Hwf) as H. cbn zeta in H.
  replace (Z.max 0 (Z.min len (ReadableBytes b))) with len in H by lia.
  destruct H as (_ & _ & _ & H3 & H4). auto.
Qed.

(** ** Where appended bytes go *)

(** X11: an append that fits into the writable space stores the bytes at the
    write cursor and touches nothing else: same storage size, same read
    cursor, every byte before the old write cursor and behind the new one as
    it was. *)
Theorem X11_Append_in_place (b : Buffer) (src : list byte) (len : Z) :
  wf b -> 0 <= len <= WritableBytes b -> len <= Z.of_nat (length src) ->
  exists b',
    Append b (Some src) len = Ok b' /\
    bsize b' = bsize b /\
    readPos_ b' = readPos_ b /\ writePos_ b' = writePos_ b + len /\
    bytes_at (buffer_ b') 0 (writePos_ b) = bytes_at (buffer_ b) 0 (writePos_ b) /\
    bytes_at (buffer_ b') (writePos_ b) len = take (Z.to_nat len) src /\
    drop (Z.to_nat (writePos_ b + len)) (buffer_ b')
    = drop (Z.to_nat (writePos_ b + len)) (buffer_ b).
Proof.
  intros Hwf Hlen Hsrc. pose proof (wf_bounds b Hwf) as Hb.
  pose proof (wf_WritableBytes b Hwf) as HW.
  eexists. split; [apply Append_in_place; assumption|].
  cbn [buffer_ readPos_ writePos_].
  set (d := take (Z.to_nat len) src).
  assert (Hd : length d = Z.to_nat len) by (unfold d; rewrite length_take; lia).
  unfold bsize, vsize in *.
  split; [unfold bsize, vsize; cbn [buffer_]; unfold store_at;
          rewrite length_store by lia; reflexivity|].
  split; [reflexivity|]. split; [reflexivity|].
  unfold bytes_at, store_at. change (Z.to_nat 0) with 0%nat. rewrite !drop_0.
  split; [|split].
  - rewrite take_app_le by (rewrite length_take; lia).
    rewrite take_take. f_equal. lia.
  - rewrite drop_app_length' by (rewrite length_take; lia).
    rewrite take_app_length' by lia. reflexivity.
  - rewrite (assoc_L (++)).
    rewrite drop_app_length'
      by (rewrite length_app, length_take; lia).
    f_equal. lia.
Qed.

Lemma X11_Append_in_place_witness :
  exists b',
    Append shifted_buffer (Some [x21; x3f]) 2 = Ok b' /\
    bsize b' = bsize shifted_buffer.
Proof.
  destruct (X11_Append_in_place shifted_buffer [x21; x3f] 2)
    as (b' & H1 & H2 & _).
  - apply wfb_spec. reflexivity.
  - split; discriminate.
  - discriminate.
  - exists b'. split; [exact H1|exact H2].
Defined.

(** X12: an append that does not fit behind the content but fits once the
    consumed space before it is reclaimed does not allocate: the storage
    keeps its size, the content moves to offset 0 and the new bytes follow
    it. *)
Theorem X12_Append_reclaims_consumed_space (b : Buffer) (src : list byte)
    (len : Z) :
  wf b -> WritableBytes b < len ->
  len <= WritableBytes b + PrependableBytes b ->
  len <= Z.of_nat (length src) ->
  exists b',
    Append b (Some src) len = Ok b' /\ wf b' /\
    bsize b' = bsize b /\
    readPos_ b' = 0 /\ writePos_ b' = ReadableBytes b + len /\
    WritableBytes b' = WritableBytes b + PrependableBytes b - len /\
    readable b' = readable b ++ take (Z.to_nat len) src.
Proof.
  intros Hwf Hsmall Hroom Hsrc. pose proof (wf_bounds b Hwf) as Hb.
  pose proof (wf_WritableBytes b Hwf) as HW.
  pose proof (wf_ReadableBytes b Hwf) as HR.
  assert (Hlen : 0 <= len <= vector_max_size)
    by (unfold PrependableBytes in Hroom; lia).
  destruct (Append_cases b src len Hwf Hlen Hsrc (room_not_refused b len Hroom))
    as (b' & HA & Hwf' & Hr & _).
  exists b'. split; [exact HA|]. split; [exact Hwf'|].
  rewrite Append_compacting in HA by assumption.
  injection HA as Hb'.
  assert (Hsz : bsize b' = bsize b).
  { rewrite <- Hb'. pose proof (length_readable b Hwf) as Hlr.
    unfold bsize, vsize, PrependableBytes in *. cbn [buffer_].
    rewrite !length_app, length_take, length_drop. lia. }
  split; [exact Hsz|].
  split; [rewrite <- Hb'; reflexivity|].
  split; [rewrite <- Hb'; reflexivity|].
  split; [|exact Hr].
  rewrite (wf_WritableBytes b') by assumption. rewrite Hsz, HW.
  rewrite <- Hb'. cbn [writePos_]. unfold PrependableBytes. lia.
Qed.

Lemma X12_Append_reclaims_consumed_space_witness :
  exists b',
    Append shifted_buffer (Some [x20; x77; x6f; x72; x6c]) 5 = Ok b' /\
    bsize b' = bsize shifted_buffer /\ readPos_ b' = 0.
Proof.
  destruct (X12_Append_reclaims_consumed_space shifted_buffer
              [x20; x77; x6f; x72; x6c] 5)
    as (b' & H1 & _ & H2 & H3 & _).
  - apply wfb_spec. reflexivity.
  - reflexivity.
  - discriminate.
  - discriminate.
  - exists b'. split; [exact H1|]. split; [exact H2|exact H3].
Defined.

(** X13: an append that does not fit even so grows the vector to exactly
    [writePos_ + len + 1] bytes, keeps both cursors' positions and every byte
    before the write cursor, and leaves exactly one writable byte. Beyond
    [max_size()] it throws instead. *)
Theorem X13_Append_grows_exactly (b : Buffer) (src : list byte) (len : Z) :
  wf b -> WritableBytes b + PrependableBytes b < len ->
  len <= Z.of_nat (length src) -> len <= vector_max_size ->
  if vector_max_size <? writePos_ b + len + 1
  then Append b (Some src) len = LengthError
  else exists b',
      Append b (Some src) len = Ok b' /\ wf b' /\
      bsize b' = writePos_ b + len + 1 /\
      readPos_ b' = readPos_ b /\ writePos_ b' = writePos_ b + len /\
      WritableBytes b' = 1 /\
      bytes_at (buffer_ b') 0 (writePos_ b)
      = bytes_at (buffer_ b) 0 (writePos_ b) /\
      readable b' = readable b ++ take (Z.to_nat len) src.
Proof.
  intros Hwf Hneed Hsrc Hmax. pose proof (wf_bounds b Hwf) as Hb.
  pose proof (wf_WritableBytes b Hwf) as HW.
  assert (Hlen : 0 <= len) by (unfold PrependableBytes in Hneed; lia).
  destruct (Z.ltb_spec vector_max_size (writePos_ b + len + 1)) as [Hbig|Hfit].
  - pose proof (Append_spec b src len Hwf (conj Hlen Hmax) Hsrc) as HA.
    assert (Hgr : growth_refused b len = true).
    { unfold growth_refused. unfold PrependableBytes in Hneed.
      rewrite !andb_true_iff, !Z.ltb_lt. unfold PrependableBytes. lia. }
    rewrite Hgr in HA. exact HA.
  - destruct (Append_cases b src len Hwf (conj Hlen Hmax) Hsrc
                (headroom_not_refused b len Hfit))
      as (b' & HA & Hwf' & Hr & _).
    exists b'. split; [exact HA|]. split; [exact Hwf'|].
    rewrite Append_growing in HA by assumption.
    injection HA as Hb'.
    assert (Hsz : bsize b' = writePos_ b + len + 1).
    { rewrite <- Hb'. unfold bsize, vsize in *. cbn [buffer_].
      rewrite !length_app, !length_take. cbn [length]. lia. }
    split; [exact Hsz|].
    split; [rewrite <- Hb'; reflexivity|].
    split; [rewrite <- Hb'; reflexivity|].
    split; [|split; [|exact Hr]].
    + rewrite (wf_WritableBytes b') by assumption. rewrite Hsz.
      rewrite <- Hb'. cbn [writePos_]. lia.
    + rewrite <- Hb'. cbn [buffer_]. unfold bytes_at.
      change (Z.to_nat 0) with 0%nat. rewrite !drop_0.
      rewrite take_app_le by (rewrite length_take; unfold bsize, vsize in *; lia).
      rewrite take_take. f_equal. lia.
Qed.

Lemma X13_Append_grows_exactly_witness :
  exists b',
    Append shifted_buffer (Some [x20; x77; x6f; x72; x6c; x64]) 6 = Ok b' /\
    bsize b' = 15 /\ WritableBytes b' = 1.
Proof.
  destruct (X13_Append_grows_exactly shifted_buffer
              [x20; x77; x6f; x72; x6c; x64] 6)
    as (b' & H1 & _ & H2 & _ & _ & H3 & _).
  - apply wfb_spec. reflexivity.
  - reflexivity.
  - discriminate.
  - discriminate.
  - exists b'. split; [exact H1|]. split; [exact H2|exact H3].
Defined.

(** ** Appends and retrievals in sequence *)

(** X14: two appends in a row leave the content one append of the
    concatenation leaves: the old content, then the first string, then the
    second. *)
Theorem X14_Append_twice (b : Buffer) (B1 B2 : list byte) :
  wf b ->
  writePos_ b + Z.of_nat (length B1) + Z.of_nat (length B2) + 1
  <= vector_max_size ->
  exists b1 b2 b12,
    Append_string b B1 = Ok b1 /\ Append_string b1 B2 = Ok b2 /\
    Append_string b (B1 ++ B2) = Ok b12 /\
    readable b2 = readable b ++ B1 ++ B2 /\
    readable b12 = readable b2.
Proof.
  intros Hwf Hroom. pose proof (wf_bounds b Hwf) as Hb.
  unfold Append_string.
  destruct (Append_cases b B1 (Z.of_nat (length B1)) Hwf)
    as (b1 & HA1 & Hwf1 & Hr1 & _ & Hw1 & _);
    [lia|lia|apply headroom_not_refused; lia|].
  destruct (Append_cases b1 B2 (Z.of_nat (length B2)) Hwf1)
    as (b2 & HA2 & _ & Hr2 & _);
    [lia|lia|apply headroom_not_refused; lia|].
  destruct (Append_cases b (B1 ++ B2) (Z.of_nat (length (B1 ++ B2))) Hwf)
    as (b12 & HA12 & _ & Hr12 & _);
    [rewrite length_app; lia|lia
    |apply headroom_not_refused; rewrite length_app; lia|].
  rewrite Nat2Z.id, take_ge in Hr1, Hr2, Hr12 by lia.
  exists b1, b2, b12.
  split; [exact HA1|]. split; [exact HA2|]. split; [exact HA12|].
  rewrite Hr12, Hr2, Hr1, <- (assoc_L (++)). split; reflexivity.
Qed.

Lemma X14_Append_twice_witness :
  exists b1 b2,
    Append_string shifted_buffer [x2c; x20] = Ok b1 /\
    Append_string b1 [x77; x6f; x72; x6c; x64] = Ok b2 /\
    readable b2
    = readable shifted_buffer ++ [x2c; x20] ++ [x77; x6f; x72; x6c; x64].
Proof.
  destruct (X14_Append_twice shifted_buffer [x2c; x20]
              [x77; x6f; x72; x6c; x64])
    as (b1 & b2 & _ & H1 & H2 & _ & H3 & _).
  - apply wfb_spec. reflexivity.
  - discriminate.
  - exists b1, b2. split; [exact H1|]. split; [exact H2|exact H3].
Defined.

(** X15: appending another buffer appends that buffer's content, all of it
    and nothing of its consumed or writable bytes. *)
Theorem X15_Append_Buffer_copies_content (b buff : Buffer) :
  wf b -> wf buff ->
  writePos_ b + ReadableBytes buff + 1 <= vector_max_size ->
  exists b',
    Append_Buffer b buff = Ok b' /\ wf b' /\
    readable b' = readable b ++ readable buff /\
    ReadableBytes b' = ReadableBytes b + ReadableBytes buff.
Proof.
  intros Hwf Hwfb Hroom. pose proof (wf_bounds b Hwf) as Hb.
  pose proof (wf_bounds buff Hwfb) as Hbb.
  pose proof (wf_ReadableBytes buff Hwfb) as HRb.
  unfold Append_Buffer.
  destruct (Append_cases b (drop (Z.to_nat (Peek buff)) (buffer_ buff))
              (ReadableBytes buff) Hwf)
    as (b' & HA & Hwf' & Hr & _).
  - lia.
  - rewrite length_drop. unfold Peek, bsize, vsize in *. lia.
  - apply headroom_not_refused. assumption.
  - exists b'. split; [exact HA|]. split; [exact Hwf'|].
    fold (bytes_at (buffer_ buff) (Peek buff) (ReadableBytes buff)) in Hr.
    fold (readable buff) in Hr. split; [exact Hr|].
    pose proof (length_readable b' Hwf') as Hl'.
    rewrite Hr, length_app, Nat2Z.inj_add, !length_readable in Hl'
      by assumption.
    rewrite !wf_ReadableBytes by assumption. lia.
Qed.

Lemma X15_Append_Buffer_copies_content_witness :
  exists b',
    Append_Buffer hello_buffer shifted_buffer = Ok b' /\
    readable b' = hello ++ hello.
Proof.
  destruct (X15_Append_Buffer_copies_content hello_buffer shifted_buffer)
    as (b' & H1 & _ & H2 & _).
  - apply wfb_spec. reflexivity.
  - apply wfb_spec. reflexivity.
  - discriminate.
  - exists b'. split; [exact H1|exact H2].
Defined.

(** X16: the buffer is a queue of bytes. After appending [B], retrieving as
    many bytes as were readable before leaves exactly [B]; retrieving
    [B]'s length as well leaves nothing readable. *)
Theorem X16_Append_then_Retrieve_is_fifo (b : Buffer) (B : list byte) :
  wf b -> writePos_ b + Z.of_nat (length B) + 1 <= vector_max_size ->
  exists b1 b2 b3,
    Append_string b B = Ok b1 /\
    Retrieve b1 (ReadableBytes b) = Ok b2 /\ readable b2 = B /\
    Retrieve b2 (Z.of_nat (length B)) = Ok b3 /\
    ReadableBytes b3 = 0 /\ readable b3 = [].
Proof.
  intros Hwf Hroom. pose proof (wf_bounds b Hwf) as Hb.
  pose proof (wf_ReadableBytes b Hwf) as HR.
  pose proof (length_readable b Hwf) as Hlr.
  unfold Append_string.
  destruct (Append_cases b B (Z.of_nat (length B)) Hwf)
    as (b1 & HA1 & Hwf1 & Hr1 & _);
    [lia|lia|apply headroom_not_refused; lia|].
  rewrite Nat2Z.id, take_ge in Hr1 by lia.
  pose proof (length_readable b1 Hwf1) as Hl1.
  rewrite Hr1, length_app, Nat2Z.inj_add in Hl1.
  pose proof (wf_ReadableBytes b1 Hwf1) as HR1.
  destruct (Retrieve_readable b1 (ReadableBytes b) Hwf1)
    as (HT2 & Hwf2 & Hr2 & HR2); [lia|].
  set (b2 := with_readPos b1 (readPos_ b1 + ReadableBytes b)) in *.
  assert (HB : readable b2 = B).
  { rewrite Hr2, Hr1. apply drop_app_length'. lia. }
  destruct (Retrieve_readable b2 (Z.of_nat (length B)) Hwf2)
    as (HT3 & Hwf3 & Hr3 & HR3); [lia|].
  exists b1, b2, (with_readPos b2 (readPos_ b2 + Z.of_nat (length B))).
  split; [exact HA1|]. split; [exact HT2|]. split; [exact HB|].
  split; [exact HT3|]. split; [lia|].
  rewrite Hr3, HB, Nat2Z.id. apply drop_all.
Qed.

Lemma X16_Append_then_Retrieve_is_fifo_witness :
  exists b1 b2,
    Append_string shifted_buffer [x21; x3f] = Ok b1 /\
    Retrieve b1 (ReadableBytes shifted_buffer) = Ok b2 /\
    readable b2 = [x21; x3f].
Proof.
  destruct (X16_Append_then_Retrieve_is_fifo shifted_buffer [x21; x3f])
    as (b1 & b2 & _ & H1 & H2 & H3 & _).
  - apply wfb_spec. reflexivity.
  - discriminate.
  - exists b1, b2. split; [exact H1|]. split; [exact H2|exact H3].
Defined.

(** X17: a buffer whose content has been consumed takes up to its whole
    capacity in one append without allocating, wherever its cursors
    stand. *)
Theorem X17_drained_buffer_refills_in_place (b : Buffer) (src : list byte)
    (len : Z) :
  wf b -> ReadableBytes b = 0 ->
  0 <= len <= bsize b -> len <= Z.of_nat (length src) ->
  exists b',
    Append b (Some src) len = Ok b' /\ wf b' /\
    bsize b' = bsize b /\ readable b' = take (Z.to_nat len) src.
Proof.
  intros Hwf Hempty Hlen Hsrc. pose proof (wf_bounds b Hwf) as Hb.
  pose proof (wf_WritableBytes b Hwf) as HW.
  pose proof (wf_ReadableBytes b Hwf) as HR.
  assert (Hroom : len <= WritableBytes b + PrependableBytes b)
    by (unfold PrependableBytes; lia).
  destruct (Append_cases b src len Hwf) as (b' & HA & Hwf' & Hr & _ & _ & Hge & Hle);
    [lia|assumption|apply room_not_refused; assumption|].
  assert (Hnil : readable b = []).
  { apply length_zero_iff_nil. pose proof (length_readable b Hwf). lia. }
  rewrite Hnil in Hr. cbn [app] in Hr.
  exists b'. split; [exact HA|]. split; [exact Hwf'|]. split; [|exact Hr].
  destruct (Z_le_gt_dec len (WritableBytes b)) as [Hfit|Hover].
  - rewrite Append_in_place in HA by (assumption || lia).
    injection HA as <-. unfold bsize. cbn [buffer_].
    apply length_store_at; [lia|]. rewrite length_take. unfold bsize in *. lia.
  - rewrite Append_compacting in HA by (assumption || lia).
    injection HA as <-. unfold bsize, vsize in *. cbn [buffer_].
    rewrite Hnil. cbn [app]. rewrite length_app, length_take, length_drop. lia.
Qed.

Lemma X17_drained_buffer_refills_in_place_witness :
  exists b',
    Append (with_readPos shifted_buffer 8) (Some (replicate 10 x2a)) 10 = Ok b' /\
    bsize b' = 10.
Proof.
  destruct (X17_drained_buffer_refills_in_place (with_readPos shifted_buffer 8)
              (replicate 10 x2a) 10)
    as (b' & H1 & _ & H2 & _).
  - apply wfb_spec. reflexivity.
  - reflexivity.
  - split; discriminate.
  - discriminate.
  - exists b'. split; [exact H1|exact H2].
Defined.

(** ** EnsureWriteable *)

Lemma size_t_neg_once z :
  - SIZE_MOD <= z < 0 -> size_t z = z + SIZE_MOD.
Proof.
  intros H. unfold size_t.
  replace z with ((z + SIZE_MOD) + (-1) * SIZE_MOD) at 1 by ring.
  rewrite Z.mod_add by (rewrite SIZE_MOD_eq; lia).
  apply Z.mod_small. lia.
Qed.

(** The buffer [EnsureWriteable] returns, case by case. *)
Lemma EnsureWriteable_eq b len :
  wf b -> 0 <= len -> writePos_ b + len + 1 < SIZE_MOD ->
  growth_refused b len = false ->
  EnsureWriteable b len
  = Ok (if len <=? WritableBytes b then b
        else if len <=? WritableBytes b + PrependableBytes b
        then mkBuffer (readable b ++
                       drop (Z.to_nat (ReadableBytes b)) (buffer_ b))
                      0 (ReadableBytes b)
        else with_buffer b
               (buffer_ b ++
                replicate (Z.to_nat (writePos_ b + len + 1 - bsize b)) x00)).
Proof.
  intros Hwf Hlen Hnowrap Hgr. pose proof (wf_bounds b Hwf) as Hb.
  pose proof (EnsureWriteable_spec b len Hwf Hlen Hnowrap) as HE.
  rewrite Hgr in HE. destruct HE as (b' & HE & _ & _ & _ & _ & Hsame).
  rewrite HE. f_equal.
  destruct (Z.leb_spec len (WritableBytes b)) as [Hfit|Hover];
    [apply Hsame; assumption|].
  unfold EnsureWriteable in HE.
  destruct (Z.ltb_spec (WritableBytes b) len); [|lia].
  destruct (Z.leb_spec len (WritableBytes b + PrependableBytes b))
    as [Hcom|Hgrow].
  - rewrite MakeSpace_compact in HE by assumption.
    cbn [mbind result_bind] in HE.
    destruct (len <=? _) in HE; cbn [assert_ mbind result_bind] in HE;
      [|discriminate HE].
    injection HE as <-. reflexivity.
  - assert (Hfit : writePos_ b + len + 1 <= vector_max_size)
      by (apply growth_refused_false_fits;
          [unfold PrependableBytes; lia|lia|assumption]).
    rewrite MakeSpace_grow in HE by (assumption || lia).
    cbn [mbind result_bind] in HE.
    destruct (len <=? _) in HE; cbn [assert_ mbind result_bind] in HE;
      [|discriminate HE].
    injection HE as <-. reflexivity.
Qed.

(** X18: whenever [EnsureWriteable(len)] returns, [len <= WritableBytes()]
    holds in the state it leaves (the closing assertion), and calling it
    again with the same [len] changes nothing. *)
Theorem X18_EnsureWriteable_idempotent (b b' : Buffer) (len : Z) :
  EnsureWriteable b len = Ok b' ->
  len <= WritableBytes b' /\ EnsureWriteable b' len = Ok b'.
Proof.
  intros HE. unfold EnsureWriteable in HE.
  destruct (if WritableBytes b <? len then MakeSpace_ b len else Ok b)
    as [b1| | |]; cbn [mbind result_bind] in HE; try discriminate HE.
  destruct (Z.leb_spec len (WritableBytes b1)) as [Hle|Hgt];
    cbn [assert_ mbind result_bind] in HE; [|discriminate HE].
  injection HE as <-. split; [exact Hle|].
  unfold EnsureWriteable.
  destruct (Z.ltb_spec (WritableBytes b1) len); [lia|].
  cbn [mbind result_bind].
  destruct (Z.leb_spec len (WritableBytes b1)); [reflexivity|lia].
Qed.

Lemma X18_EnsureWriteable_idempotent_witness :
  exists b',
    EnsureWriteable shifted_buffer 5 = Ok b' /\
    5 <= WritableBytes b' /\ EnsureWriteable b' 5 = Ok b'.
Proof.
  eexists. split; [reflexivity|].
  apply (X18_EnsureWriteable_idempotent shifted_buffer). reflexivity.
Defined.

(** X19: as long as [writePos_ + len + 1] stays below 2^64,
    [EnsureWriteable(len)] either throws (growth beyond [max_size()]) or
    returns with room for [len] bytes and the content as it was. It changes
    nothing when the room is there, never shrinks the storage, never moves
    a cursor to the right, and allocates only when the free space before and
    behind the content together is too small. *)
Theorem X19_EnsureWriteable_without_wrap (b : Buffer) (len : Z) :
  wf b -> 0 <= len -> writePos_ b + len + 1 < SIZE_MOD ->
  if growth_refused b len then EnsureWriteable b len = LengthError
  else exists b',
      EnsureWriteable b len = Ok b' /\ wf b' /\
      len <= WritableBytes b' /\
      readable b' = readable b /\
      (len <= WritableBytes b -> b' = b) /\
      (len <= WritableBytes b + PrependableBytes b -> bsize b' = bsize b) /\
      bsize b <= bsize b' /\
      readPos_ b' <= readPos_ b /\ writePos_ b' <= writePos_ b.
Proof.
  intros Hwf Hlen Hnowrap. pose proof (wf_bounds b Hwf) as Hb.
  pose proof (wf_WritableBytes b Hwf) as HW.
  pose proof (wf_ReadableBytes b Hwf) as HR.
  pose proof (length_readable b Hwf) as Hlr.
  pose proof (EnsureWriteable_spec b len Hwf Hlen Hnowrap) as HE.
  pose proof (EnsureWriteable_eq b len Hwf Hlen Hnowrap) as Heq.
  destruct (growth_refused b len); [exact HE|].
  destruct HE as (b' & HE & Hwf' & Hroom & Hr & _ & Hsame).
  exists b'. split; [exact HE|]. split; [exact Hwf'|]. split; [exact Hroom|].
  split; [exact Hr|]. split; [exact Hsame|].
  rewrite Heq in HE by reflexivity. injection HE as Hb'.
  unfold PrependableBytes in *.
  destruct (Z.leb_spec len (WritableBytes b)) as [Hfit|Hover].
  - subst b'. repeat split; lia.
  - destruct (Z.leb_spec len (WritableBytes b + readPos_ b)) as [Hcom|Hgrow];
      subst b'; unfold bsize, vsize in *; cbn [with_buffer buffer_ readPos_ writePos_].
    + rewrite length_app, length_drop. repeat split; lia.
    + rewrite length_app, length_replicate. repeat split; lia.
Qed.

Lemma X19_EnsureWriteable_without_wrap_witness :
  exists b',
    EnsureWriteable shifted_buffer 5 = Ok b' /\
    5 <= WritableBytes b' /\ readable b' = readable shifted_buffer.
Proof.
  destruct (X19_EnsureWriteable_without_wrap shifted_buffer 5)
    as (b' & H1 & _ & H2 & H3 & _).
  - apply wfb_spec. reflexivity.
  - discriminate.
  - reflexivity.
  - exists b'. split; [exact H1|]. split; [exact H2|exact H3].
Defined.

(** X20: for every [len] below 2^64 - 1 with [writePos_ + len + 1] at or
    above 2^64 the sum wraps around: [EnsureWriteable(len)] returns normally,
    having cut the storage to [writePos_ + len + 1 - 2^64] bytes, fewer than
    the write cursor, and [WritableBytes()] then reports [len + 1]. *)
Theorem X20_EnsureWriteable_in_the_wrap_range (b : Buffer) (len : Z) :
  wf b -> len < SIZE_MOD - 1 -> SIZE_MOD <= writePos_ b + len + 1 ->
  let cut :=
    with_buffer b
      (take (Z.to_nat (writePos_ b + len + 1 - SIZE_MOD)) (buffer_ b)) in
  EnsureWriteable b len = Ok cut /\
  bsize cut = writePos_ b + len + 1 - SIZE_MOD /\
  bsize cut < writePos_ cut /\
  WritableBytes cut = len + 1.
Proof.
  intros Hwf Hlen Hwrap cut. pose proof (wf_bounds b Hwf) as Hb.
  pose proof (wf_WritableBytes b Hwf) as HW.
  rewrite vector_max_size_eq in Hb. rewrite SIZE_MOD_eq in Hlen, Hwrap, Hb.
  assert (Hsz : bsize cut = writePos_ b + len + 1 - SIZE_MOD).
  { unfold cut, with_buffer, bsize, vsize in *. cbn [buffer_].
    rewrite length_take. rewrite SIZE_MOD_eq. lia. }
  assert (HWc : WritableBytes cut = len + 1).
  { unfold WritableBytes. rewrite Hsz. unfold cut. cbn [with_buffer writePos_].
    rewrite size_t_neg_once by (rewrite SIZE_MOD_eq; lia). lia. }
  split; [|split; [exact Hsz|split; [|exact HWc]]].
  - unfold EnsureWriteable.
    destruct (Z.ltb_spec (WritableBytes b) len); [|lia].
    rewrite MakeSpace_wraps by (rewrite ?SIZE_MOD_eq; assumption || lia).
    cbn [mbind result_bind]. fold cut. rewrite HWc.
    destruct (Z.leb_spec len (len + 1)); [reflexivity|lia].
  - rewrite Hsz. unfold cut. cbn [with_buffer writePos_].
    rewrite SIZE_MOD_eq. lia.
Qed.

Lemma X20_EnsureWriteable_in_the_wrap_range_witness :
  EnsureWriteable shifted_buffer (SIZE_MOD - 5)
  = Ok (with_buffer shifted_buffer (take 4 (buffer_ shifted_buffer))).
Proof.
  apply (X20_EnsureWriteable_in_the_wrap_range shifted_buffer (SIZE_MOD - 5)).
  - apply wfb_spec. reflexivity.
  - reflexivity.
  - discriminate.
Defined.

(** ** The invariant along a client's calls *)

(** X21: starting from a well-formed buffer, any sequence of calls of the
    public interface, each made within its precondition (and no
    [EnsureWriteable] length in the wrap range), ends well-formed or with the
    vector refusing to grow; no assertion fails and no access leaves an
    array on the way. *)
Theorem X21_invariant_along_calls (cs : list call) (b : Buffer) :
  wf b -> pre_all cs b ->
  match run_all cs b with
  | Ok b' => wf b'
  | LengthError => True
  | AssertFail | OutOfBounds => False
  end.
Proof.
  revert b. induction cs as [|c cs IH]; intros b Hwf Hpre.
  - exact Hwf.
  - cbn [run_all pre_all] in *. destruct Hpre as (Hp & Hf & Hrest).
    pose proof (run_preserves_wf c b Hwf Hp Hf) as Hstep.
    destruct (run c b) as [b1| | |]; cbn [mbind result_bind].
    + apply IH; assumption.
    + exact Hstep.
    + exact I.
    + exact Hstep.
Qed.

Lemma X21_invariant_along_calls_witness :
  wf hello_buffer /\
  match
    run_all [CRetrieve 2; CAppendString hello; CEnsureWriteable 20;
             CWriteFd 0 (WriteRoom 4); CRetrieveAll] hello_buffer
  with
  | Ok b' => wf b'
  | LengthError => True
  | AssertFail | OutOfBounds => False
  end.
Proof.
  assert (Hwf : wf hello_buffer) by (apply wfb_spec; reflexivity).
  split; [exact Hwf|].
  apply (X21_invariant_along_calls
           [CRetrieve 2; CAppendString hello; CEnsureWriteable 20;
            CWriteFd 0 (WriteRoom 4); CRetrieveAll] hello_buffer Hwf).
  vm_compute. intuition discriminate.
Defined.

(** ** ReadFd and WriteFd together *)

Lemma delivered_length b pending :
  wf b -> WritableBytes b + sizeof_buff <= SSIZE_MAX ->
  delivered b pending
  = take (Z.to_nat (Z.min (Z.of_nat (length pending))
                          (WritableBytes b + sizeof_buff))) pending /\
  Z.of_nat (length (delivered b pending))
  = Z.min (Z.of_nat (length pending)) (WritableBytes b + sizeof_buff).
Proof.
  intros Hwf Hs. pose proof (wf_bounds b Hwf) as Hb.
  pose proof (wf_WritableBytes b Hwf) as HW.
  unfold delivered. change sizeof_buff with 65535 in *.
  rewrite Z.min_l by lia. split.
  - destruct (Z_le_gt_dec (Z.of_nat (length pending)) (WritableBytes b + 65535)).
    + rewrite Z.min_l by lia. rewrite !take_ge by lia. reflexivity.
    + rewrite Z.min_r by lia. reflexivity.
  - rewrite length_take. lia.
Qed.

Lemma bsize_with_writePos b w : bsize (with_writePos b w) = bsize b.
Proof. reflexivity. Qed.

(** A ready descriptor, with the vector able to grow if it must: the call
    returns the number of bytes handed over, which are behind the old
    content afterwards. *)
Lemma ReadFd_total b buff Errno pending :
  wf b ->
  let got := delivered b pending in
  let n := Z.of_nat (length got) in
  n <= WritableBytes b + PrependableBytes b \/
  bsize b + (n - WritableBytes b) + 1 <= vector_max_size ->
  exists b',
    ReadFd b buff Errno (ReadReady pending) = Ok (mkFdRet b' Errno n) /\
    wf b' /\ readable b' = readable b ++ got /\
    bsize b <= bsize b' /\
    (n <= WritableBytes b + PrependableBytes b -> bsize b' = bsize b) /\
    bsize b' <= Z.max (bsize b) (bsize b + (n - WritableBytes b) + 1).
Proof.
  intros Hwf got n Hroom. pose proof (wf_bounds b Hwf) as Hb.
  pose proof (wf_WritableBytes b Hwf) as HW.
  assert (HW0 : 0 <= WritableBytes b) by lia.
  destruct (delivered_bound b pending HW0) as [Hn1 _].
  fold got in Hn1. fold n in Hn1. change sizeof_buff with 65535 in Hn1.
  destruct (Z_le_gt_dec n (WritableBytes b)) as [Hfit|Hover].
  - destruct (ReadFd_fits b buff Errno pending Hwf Hfit) as (HA & Hwf' & Hr).
    eexists. split; [exact HA|]. split; [exact Hwf'|]. split; [exact Hr|].
    rewrite bsize_with_writePos, bsize_store_at.
    + split; [lia|]. split; [reflexivity|lia].
    + assumption.
    + rewrite length_take. fold got. fold n. lia.
  - destruct (ReadFd_overflows b buff Errno pending Hwf)
      as (Hw1 & Hwf1 & Heq & _); [fold got; fold n; lia|].
    fold got in Hw1, Hwf1, Heq. fold n in Heq.
    set (b1 := with_writePos _ _) in *.
    set (scratch := _ ++ _) in *.
    pose proof (wf_WritableBytes b1 Hwf1) as HW1.
    assert (Hsz1 : bsize b1 = bsize b).
    { pose proof (wf_bounds b1 Hwf1) as Hb1.
      unfold b1. rewrite bsize_with_writePos.
      apply bsize_store_at; [assumption|].
      rewrite length_take. fold n. lia. }
    assert (HP1 : PrependableBytes b1 = PrependableBytes b) by reflexivity.
    assert (Hgr : growth_refused b1 (n - WritableBytes b) = false).
    { destruct Hroom as [Hcom|Hhead].
      - apply room_not_refused. rewrite HW1, Hsz1, Hw1, HP1. lia.
      - apply headroom_not_refused. rewrite Hw1. lia. }
    destruct (Append_cases b1 scratch (n - WritableBytes b) Hwf1)
      as (b2 & HA & Hwf2 & Hr2 & _ & _ & Hge & Hle & Hsame).
    + rewrite vector_max_size_eq. lia.
    + unfold scratch. rewrite length_app, length_drop. fold n. lia.
    + exact Hgr.
    + rewrite Heq, HA. cbn [mbind result_bind].
      exists b2. split; [reflexivity|]. split; [exact Hwf2|].
      split; [|split; [|split]].
      * pose proof (ReadFd_overflows b buff Errno pending Hwf) as H.
        cbn zeta in H. fold got n b1 scratch in H.
        destruct H as (_ & _ & _ & H); [lia|].
        rewrite Hgr in H. destruct H as (b2' & H & _ & Hr2').
        rewrite Heq, HA in H. cbn [mbind result_bind] in H.
        injection H as <-. exact Hr2'.
      * lia.
      * intros Hcom. rewrite <- Hsz1. apply Hsame.
        rewrite HW1, Hsz1, Hw1, HP1. lia.
      * rewrite Hsz1, Hw1 in Hle. lia.
Qed.

(** X22: what [ReadFd] takes from one descriptor is what [WriteFd] hands to
    another. With room for the vector to grow, a read from a ready
    descriptor returns [min(pending, WritableBytes() + 65535)]; a write on a
    descriptor with room for the whole content then hands over the old
    content followed by exactly the bytes read, and leaves nothing
    readable. *)
Theorem X22_ReadFd_then_WriteFd_echo (b : Buffer) (buff : list byte)
    (Errno : Z) (pending : list byte) (room : Z) :
  wf b -> bsize b + sizeof_buff + 1 <= vector_max_size ->
  let n := Z.min (Z.of_nat (length pending)) (WritableBytes b + sizeof_buff) in
  exists b1,
    ReadFd b buff Errno (ReadReady pending) = Ok (mkFdRet b1 Errno n) /\
    wf b1 /\
    readable b1 = readable b ++ take (Z.to_nat n) pending /\
    (ReadableBytes b1 <= room ->
     WriteFd_sent b1 (WriteRoom room)
     = readable b ++ take (Z.to_nat n) pending /\
     exists b2,
       WriteFd b1 Errno (WriteRoom room)
       = Ok (mkFdRet b2 Errno (ReadableBytes b1)) /\
       ReadableBytes b2 = 0).
Proof.
  intros Hwf Hhead n. pose proof (wf_bounds b Hwf) as Hb.
  pose proof (wf_WritableBytes b Hwf) as HW.
  change sizeof_buff with 65535 in *. rewrite vector_max_size_eq in *.
  destruct (delivered_length b pending Hwf) as [Hd Hn];
    [change sizeof_buff with 65535; rewrite SSIZE_MAX_eq; lia|].
  change sizeof_buff with 65535 in Hd, Hn. fold n in Hd, Hn.
  destruct (ReadFd_total b buff Errno pending Hwf)
    as (b1 & HA & Hwf1 & Hr1 & _).
  { cbn zeta. right. rewrite Hn, vector_max_size_eq. lia. }
  rewrite Hn in HA. rewrite Hd in Hr1.
  exists b1. split; [exact HA|]. split; [exact Hwf1|]. split; [exact Hr1|].
  intros Hroom.
  pose proof (wf_ReadableBytes b1 Hwf1) as HR1.
  pose proof (wf_bounds b1 Hwf1) as Hb1.
  pose proof (length_readable b1 Hwf1) as Hl1.
  pose proof (WriteFd_room_spec b1 Errno room Hwf1) as H. cbn zeta in H.
  replace (Z.max 0 (Z.min room (ReadableBytes b1)))
    with (ReadableBytes b1) in H by lia.
  destruct H as (G1 & G2 & _ & _ & G4).
  split.
  - rewrite G2, take_ge by lia. exact Hr1.
  - eexists. split; [exact G1|]. lia.
Qed.

Lemma X22_ReadFd_then_WriteFd_echo_witness :
  exists b1,
    ReadFd shifted_buffer [] 0 (ReadReady [x20; x77; x6f; x72; x6c; x64])
    = Ok (mkFdRet b1 0 6) /\
    readable b1 = hello ++ [x20; x77; x6f; x72; x6c; x64].
Proof.
  destruct (X22_ReadFd_then_WriteFd_echo shifted_buffer [] 0
              [x20; x77; x6f; x72; x6c; x64] 100)
    as (b1 & H1 & _ & H2 & _).
  - apply wfb_spec. reflexivity.
  - discriminate.
  - exists b1. split; [exact H1|exact H2].
Defined.

(** X23: a read whose bytes fit into the free space before and behind the
    content together never allocates: the storage keeps its size, whether
    the bytes went straight into the writable region or partly through the
    local array and a compaction. *)
Theorem X23_ReadFd_reuses_free_space (b : Buffer) (buff : list byte)
    (Errno : Z) (pending : list byte) :
  wf b ->
  Z.of_nat (length (delivered b pending))
  <= WritableBytes b + PrependableBytes b ->
  exists b',
    ReadFd b buff Errno (ReadReady pending)
    = Ok (mkFdRet b' Errno (Z.of_nat (length (delivered b pending)))) /\
    wf b' /\ bsize b' = bsize b /\
    readable b' = readable b ++ delivered b pending.
Proof.
  intros Hwf Hroom.
  destruct (ReadFd_total b buff Errno pending Hwf)
    as (b' & HA & Hwf' & Hr & _ & Hsame & _).
  { cbn zeta. left. exact Hroom. }
  exists b'. split; [exact HA|]. split; [exact Hwf'|].
  split; [apply Hsame; exact Hroom|exact Hr].
Qed.

Lemma X23_ReadFd_reuses_free_space_witness :
  exists b',
    ReadFd shifted_buffer [] 0 (ReadReady [x20; x77; x6f; x72; x6c])
    = Ok (mkFdRet b' 0 5) /\
    bsize b' = 10.
Proof.
  destruct (X23_ReadFd_reuses_free_space shifted_buffer [] 0
              [x20; x77; x6f; x72; x6c])
    as (b' & H1 & _ & H2 & _).
  - apply wfb_spec. reflexivity.
  - discriminate.
  - exists b'. split; [exact H1|exact H2].
Defined.

Lemma take_own_length (l : list byte) (c : nat) :
  take c l = take (length (take c l)) l.
Proof.
  rewrite length_take.
  destruct (Nat.le_gt_cases c (length l)).
  - rewrite Nat.min_l by lia. reflexivity.
  - rewrite Nat.min_r by lia. rewrite !take_ge by lia. reflexivity.
Qed.

(** X24: reading a stream with two calls in a row, the second on what the
    first left pending, puts the stream's bytes behind the old content in
    order: nothing is lost, repeated or reordered between the calls. *)
Theorem X24_ReadFd_twice_reads_in_order (b : Buffer) (buff1 buff2 : list byte)
    (Errno : Z) (stream : list byte) :
  wf b -> bsize b + 2 * (sizeof_buff + 1) <= vector_max_size ->
  exists b1 b2 n1 n2,
    ReadFd b buff1 Errno (ReadReady stream) = Ok (mkFdRet b1 Errno n1) /\
    ReadFd b1 buff2 Errno (ReadReady (drop (Z.to_nat n1) stream))
    = Ok (mkFdRet b2 Errno n2) /\
    0 <= n1 /\ 0 <= n2 /\
    readable b2 = readable b ++ take (Z.to_nat (n1 + n2)) stream.
Proof.
  intros Hwf Hhead. pose proof (wf_bounds b Hwf) as Hb.
  pose proof (wf_WritableBytes b Hwf) as HW.
  change sizeof_buff with 65535 in Hhead. rewrite vector_max_size_eq in *.
  assert (HW0 : 0 <= WritableBytes b) by lia.
  destruct (delivered_bound b stream HW0) as [Hn1 _].
  change sizeof_buff with 65535 in Hn1.
  destruct (ReadFd_total b buff1 Errno stream Hwf)
    as (b1 & HA1 & Hwf1 & Hr1 & _ & _ & Hle1).
  { cbn zeta. right. rewrite vector_max_size_eq. lia. }
  pose proof (wf_bounds b1 Hwf1) as Hb1.
  pose proof (wf_WritableBytes b1 Hwf1) as HW1.
  assert (HW10 : 0 <= WritableBytes b1) by lia.
  set (n1 := Z.of_nat (length (delivered b stream))) in *.
  destruct (delivered_bound b1 (drop (Z.to_nat n1) stream) HW10) as [Hn2 _].
  change sizeof_buff with 65535 in Hn2.
  destruct (ReadFd_total b1 buff2 Errno (drop (Z.to_nat n1) stream) Hwf1)
    as (b2 & HA2 & Hwf2 & Hr2 & _).
  { cbn zeta. right. rewrite vector_max_size_eq. lia. }
  set (n2 := Z.of_nat (length (delivered b1 (drop (Z.to_nat n1) stream)))) in *.
  exists b1, b2, n1, n2.
  split; [exact HA1|]. split; [exact HA2|].
  split; [unfold n1; lia|]. split; [unfold n2; lia|].
  rewrite Hr2, Hr1, <- (assoc_L (++)). f_equal.
  assert (H1 : delivered b stream = take (Z.to_nat n1) stream).
  { unfold n1. rewrite Nat2Z.id. unfold delivered. apply take_own_length. }
  assert (H2 : delivered b1 (drop (Z.to_nat n1) stream)
               = take (Z.to_nat n2) (drop (Z.to_nat n1) stream)).
  { unfold n2. rewrite Nat2Z.id. unfold delivered. apply take_own_length. }
  rewrite H2, H1, take_take_drop. f_equal. unfold n1, n2. lia.
Qed.

Lemma X24_ReadFd_twice_reads_in_order_witness :
  exists b1 b2 n1 n2,
    ReadFd shifted_buffer [] 0 (ReadReady [x20; x77; x6f; x72; x6c; x64])
    = Ok (mkFdRet b1 0 n1) /\
    ReadFd b1 [] 0 (ReadReady (drop (Z.to_nat n1) [x20; x77; x6f; x72; x6c; x64]))
    = Ok (mkFdRet b2 0 n2) /\
    readable b2
    = hello ++ take (Z.to_nat (n1 + n2)) [x20; x77; x6f; x72; x6c; x64].
Proof.
  destruct (X24_ReadFd_twice_reads_in_order shifted_buffer [] [] 0
              [x20; x77; x6f; x72; x6c; x64])
    as (b1 & b2 & n1 & n2 & H1 & H2 & _ & _ & H3).
  - apply wfb_spec. reflexivity.
  - discriminate.
  - exists b1, b2, n1, n2. split; [exact H1|]. split; [exact H2|exact H3].
Defined.

(** ** EnsureWriteable, for every length *)





